(** * FastRotatingCube: the integer wireframe renderer of
      [mets/embedded/fast_rotating_cube.py]

    A shallow embedding of the rendering pipeline (lookup-table rotation,
    orthographic projection, incremental line rasteriser, differential frame
    update, animation driver) together with the properties its specification
    states about it, and further properties of the same code.

    Conventions.
    - Python integers are unbounded, so they are [Z].  Python's [//] and [%]
      with a positive right operand are floor division and the non-negative
      remainder: exactly [Z.div] and [Z.modulo].
    - A [displayio.Bitmap] is a grid of colour indices that starts at 0
      everywhere and raises [IndexError] on a coordinate outside the grid.  It
      is a finite map from coordinates to values (an absent key reads 0) plus
      the history of the stores it has received, so that "this call did not
      touch the device" can be stated.  The device is not part of the program;
      what it does with a value that is no palette index is left out (the
      program stores 0, 1, 2 and 3 only).
    - A Python [set] of [(x, y)] tuples is a [gset (Z * Z)].
    - Code that can raise runs in the [outcome] monad. *)

From Stdlib Require Import ZArith Lia Floats Uint63.
From stdpp Require Import base option list gmap sets.

Local Open Scope Z_scope.

(** ** Outcomes of running a piece of the program *)

Inductive exn : Type :=
| IndexError
| KeyboardInterrupt.

(** [OutOfFuel] is the model's way to say that a [while True] loop was still
    running when the step budget given to it ran out. *)
Inductive outcome (A : Type) : Type :=
| Ok (a : A)
| Raise (e : exn)
| OutOfFuel.

Arguments Ok {A} a.
Arguments Raise {A} e.
Arguments OutOfFuel {A}.

#[global] Instance outcome_ret : MRet outcome := @Ok.
#[global] Instance outcome_bind : MBind outcome := λ A B f m,
  match m with
  | Ok a => f a
  | Raise e => Raise e
  | OutOfFuel => OutOfFuel
  end.

(** [for x in l: body], threading the mutated state and stopping at the first
    exception. *)
Fixpoint for_each {A S : Type} (body : A → S → outcome S) (l : list A) (s : S)
  : outcome S :=
  match l with
  | [] => Ok s
  | a :: l' => s' ← body a s; for_each body l' s'
  end.

(** ** Python lists *)

(** [l[i]]: a negative index counts from the end, anything else outside the
    list raises. *)
Definition py_index {A : Type} (l : list A) (i : Z) : Z :=
  if i <? 0 then i + Z.of_nat (length l) else i.

Definition list_getitem {A : Type} (l : list A) (i : Z) : outcome A :=
  let j := py_index l i in
  if (0 <=? j) && (j <? Z.of_nat (length l)) then
    match l !! Z.to_nat j with
    | Some a => Ok a
    | None => Raise IndexError
    end
  else Raise IndexError.

(** [l[i] = v] *)
Definition list_setitem {A : Type} (l : list A) (i : Z) (v : A) : outcome (list A) :=
  let j := py_index l i in
  if (0 <=? j) && (j <? Z.of_nat (length l)) then Ok (<[Z.to_nat j := v]> l)
  else Raise IndexError.

(** [enumerate(l)] *)
Definition enumerate {A : Type} (l : list A) : list (Z * A) :=
  zip (Z.of_nat <$> seq 0 (length l)) l.

(** [range(n)] *)
Definition range (n : Z) : list Z := seqZ 0 n.

(** ** Python floats, as far as the program uses them

    [int(self.rotation_speed * 0.7)] converts the integer to binary64 (to the
    nearest, ties to even), multiplies in binary64 and truncates toward zero.
    [float_of_int] is that conversion for integers below [2 ^ 63] in
    magnitude, which is where the statements below use it; the speed of the
    program is 3. *)

Definition float_of_int (n : Z) : float :=
  if 0 <=? n then PrimFloat.of_uint63 (Uint63.of_Z n)
  else PrimFloat.opp (PrimFloat.of_uint63 (Uint63.of_Z (- n))).

Definition int_of_float (f : float) : Z :=
  match Prim2SF f with
  | S754_finite s m e =>
      let mag := if 0 <=? e then Z.shiftl (Z.pos m) e else Z.shiftr (Z.pos m) (- e) in
      if s then - mag else mag
  | _ => 0
  end.

(** The literals [0.7] and [0.5] as the binary64 values Python reads. *)
Definition f0_7 : float := 0x1.6666666666666p-1%float.
Definition f0_5 : float := 0x1p-1%float.

(** ** The trigonometry tables

    [SINE_TABLE[i] = int(math.sin(i * math.pi / 180) * 1000)] for
    [i in range(360)], and likewise for the cosine.  The entries are the values
    binary64 arithmetic gives; note 499 (not 500) at 30 and 150 degrees of the
    sine, and -499 at 120 degrees of the cosine. *)

Definition SINE_TABLE : list Z :=
  [ 0; 17; 34; 52; 69; 87; 104; 121; 139; 156; 173; 190;
    207; 224; 241; 258; 275; 292; 309; 325; 342; 358; 374; 390;
    406; 422; 438; 453; 469; 484; 499; 515; 529; 544; 559; 573;
    587; 601; 615; 629; 642; 656; 669; 681; 694; 707; 719; 731;
    743; 754; 766; 777; 788; 798; 809; 819; 829; 838; 848; 857;
    866; 874; 882; 891; 898; 906; 913; 920; 927; 933; 939; 945;
    951; 956; 961; 965; 970; 974; 978; 981; 984; 987; 990; 992;
    994; 996; 997; 998; 999; 999; 1000; 999; 999; 998; 997; 996;
    994; 992; 990; 987; 984; 981; 978; 974; 970; 965; 961; 956;
    951; 945; 939; 933; 927; 920; 913; 906; 898; 891; 882; 874;
    866; 857; 848; 838; 829; 819; 809; 798; 788; 777; 766; 754;
    743; 731; 719; 707; 694; 681; 669; 656; 642; 629; 615; 601;
    587; 573; 559; 544; 529; 515; 499; 484; 469; 453; 438; 422;
    406; 390; 374; 358; 342; 325; 309; 292; 275; 258; 241; 224;
    207; 190; 173; 156; 139; 121; 104; 87; 69; 52; 34; 17;
    0; (-17); (-34); (-52); (-69); (-87); (-104); (-121); (-139); (-156); (-173); (-190);
    (-207); (-224); (-241); (-258); (-275); (-292); (-309); (-325); (-342); (-358); (-374); (-390);
    (-406); (-422); (-438); (-453); (-469); (-484); (-500); (-515); (-529); (-544); (-559); (-573);
    (-587); (-601); (-615); (-629); (-642); (-656); (-669); (-681); (-694); (-707); (-719); (-731);
    (-743); (-754); (-766); (-777); (-788); (-798); (-809); (-819); (-829); (-838); (-848); (-857);
    (-866); (-874); (-882); (-891); (-898); (-906); (-913); (-920); (-927); (-933); (-939); (-945);
    (-951); (-956); (-961); (-965); (-970); (-974); (-978); (-981); (-984); (-987); (-990); (-992);
    (-994); (-996); (-997); (-998); (-999); (-999); (-1000); (-999); (-999); (-998); (-997); (-996);
    (-994); (-992); (-990); (-987); (-984); (-981); (-978); (-974); (-970); (-965); (-961); (-956);
    (-951); (-945); (-939); (-933); (-927); (-920); (-913); (-906); (-898); (-891); (-882); (-874);
    (-866); (-857); (-848); (-838); (-829); (-819); (-809); (-798); (-788); (-777); (-766); (-754);
    (-743); (-731); (-719); (-707); (-694); (-681); (-669); (-656); (-642); (-629); (-615); (-601);
    (-587); (-573); (-559); (-544); (-529); (-515); (-500); (-484); (-469); (-453); (-438); (-422);
    (-406); (-390); (-374); (-358); (-342); (-325); (-309); (-292); (-275); (-258); (-241); (-224);
    (-207); (-190); (-173); (-156); (-139); (-121); (-104); (-87); (-69); (-52); (-34); (-17) ].

Definition COSINE_TABLE : list Z :=
  [ 1000; 999; 999; 998; 997; 996; 994; 992; 990; 987; 984; 981;
    978; 974; 970; 965; 961; 956; 951; 945; 939; 933; 927; 920;
    913; 906; 898; 891; 882; 874; 866; 857; 848; 838; 829; 819;
    809; 798; 788; 777; 766; 754; 743; 731; 719; 707; 694; 681;
    669; 656; 642; 629; 615; 601; 587; 573; 559; 544; 529; 515;
    500; 484; 469; 453; 438; 422; 406; 390; 374; 358; 342; 325;
    309; 292; 275; 258; 241; 224; 207; 190; 173; 156; 139; 121;
    104; 87; 69; 52; 34; 17; 0; (-17); (-34); (-52); (-69); (-87);
    (-104); (-121); (-139); (-156); (-173); (-190); (-207); (-224); (-241); (-258); (-275); (-292);
    (-309); (-325); (-342); (-358); (-374); (-390); (-406); (-422); (-438); (-453); (-469); (-484);
    (-499); (-515); (-529); (-544); (-559); (-573); (-587); (-601); (-615); (-629); (-642); (-656);
    (-669); (-681); (-694); (-707); (-719); (-731); (-743); (-754); (-766); (-777); (-788); (-798);
    (-809); (-819); (-829); (-838); (-848); (-857); (-866); (-874); (-882); (-891); (-898); (-906);
    (-913); (-920); (-927); (-933); (-939); (-945); (-951); (-956); (-961); (-965); (-970); (-974);
    (-978); (-981); (-984); (-987); (-990); (-992); (-994); (-996); (-997); (-998); (-999); (-999);
    (-1000); (-999); (-999); (-998); (-997); (-996); (-994); (-992); (-990); (-987); (-984); (-981);
    (-978); (-974); (-970); (-965); (-961); (-956); (-951); (-945); (-939); (-933); (-927); (-920);
    (-913); (-906); (-898); (-891); (-882); (-874); (-866); (-857); (-848); (-838); (-829); (-819);
    (-809); (-798); (-788); (-777); (-766); (-754); (-743); (-731); (-719); (-707); (-694); (-681);
    (-669); (-656); (-642); (-629); (-615); (-601); (-587); (-573); (-559); (-544); (-529); (-515);
    (-500); (-484); (-469); (-453); (-438); (-422); (-406); (-390); (-374); (-358); (-342); (-325);
    (-309); (-292); (-275); (-258); (-241); (-224); (-207); (-190); (-173); (-156); (-139); (-121);
    (-104); (-87); (-69); (-52); (-34); (-17); 0; 17; 34; 52; 69; 87;
    104; 121; 139; 156; 173; 190; 207; 224; 241; 258; 275; 292;
    309; 325; 342; 358; 374; 390; 406; 422; 438; 453; 469; 484;
    500; 515; 529; 544; 559; 573; 587; 601; 615; 629; 642; 656;
    669; 681; 694; 707; 719; 731; 743; 754; 766; 777; 788; 798;
    809; 819; 829; 838; 848; 857; 866; 874; 882; 891; 898; 906;
    913; 920; 927; 933; 939; 945; 951; 956; 961; 965; 970; 974;
    978; 981; 984; 987; 990; 992; 994; 996; 997; 998; 999; 999 ].

(** ** The device: [displayio.Bitmap] *)

Definition Point2 : Type := Z * Z.
Definition Point3 : Type := Z * Z * Z.

(** One store received by the bitmap: the coordinate and the colour index. *)
Definition store : Type := Z * Z * Z.

Record Bitmap : Type := mkBitmap {
  cells : gmap (Z * Z) Z;
  writes : list store
}.

(** What [bitmap[x, y]] reads for a coordinate of the grid. *)
Definition pixel (b : Bitmap) (x y : Z) : Z := default 0 (cells b !! (x, y)).

(** The bitmap as [displayio.Bitmap(MATRIX_WIDTH, MATRIX_HEIGHT, 8)] makes
    it. *)
Definition new_bitmap : Bitmap := mkBitmap ∅ [].

(** ** The object state *)

Record FastRotatingCube : Type := mkFastRotatingCube {
  bitmap : Bitmap;
  angle_x : Z;
  angle_y : Z;
  angle_z : Z;
  rotation_speed : Z;
  scale : Z;
  center_x : Z;
  center_y : Z;
  previous_pixels : gset (Z * Z);
  transformed_vertices : list Point2
}.

Definition vertices : list Point3 :=
  [ (-1000, -1000, -1000);
    (1000, -1000, -1000);
    (1000, 1000, -1000);
    (-1000, 1000, -1000);
    (-1000, -1000, 1000);
    (1000, -1000, 1000);
    (1000, 1000, 1000);
    (-1000, 1000, 1000) ].

Definition edges : list (Z * Z) :=
  [ (0, 1); (1, 2); (2, 3); (3, 0);
    (4, 5); (5, 6); (6, 7); (7, 4);
    (0, 4); (1, 5); (2, 6); (3, 7) ].

Definition set_bitmap (b : Bitmap) (s : FastRotatingCube) : FastRotatingCube :=
  {| bitmap := b;
     angle_x := angle_x s; angle_y := angle_y s; angle_z := angle_z s;
     rotation_speed := rotation_speed s;
     scale := scale s; center_x := center_x s; center_y := center_y s;
     previous_pixels := previous_pixels s;
     transformed_vertices := transformed_vertices s |}.

Definition set_angles (ax ay az : Z) (s : FastRotatingCube) : FastRotatingCube :=
  {| bitmap := bitmap s;
     angle_x := ax; angle_y := ay; angle_z := az;
     rotation_speed := rotation_speed s;
     scale := scale s; center_x := center_x s; center_y := center_y s;
     previous_pixels := previous_pixels s;
     transformed_vertices := transformed_vertices s |}.

(** ** Rotation *)

(** [fast_rotate_point(self, point)] *)
Definition fast_rotate_point (s : FastRotatingCube) (point : Point3) : outcome Point3 :=
  let '(x, y, z) := point in
  sin_x ← list_getitem SINE_TABLE (angle_x s mod 360);
  cos_x ← list_getitem COSINE_TABLE (angle_x s mod 360);
  sin_y ← list_getitem SINE_TABLE (angle_y s mod 360);
  cos_y ← list_getitem COSINE_TABLE (angle_y s mod 360);
  sin_z ← list_getitem SINE_TABLE (angle_z s mod 360);
  cos_z ← list_getitem COSINE_TABLE (angle_z s mod 360);
  (* Rotate around X-axis *)
  let new_y := (y * cos_x - z * sin_x) / 1000 in
  let new_z := (y * sin_x + z * cos_x) / 1000 in
  let '(y, z) := (new_y, new_z) in
  (* Rotate around Y-axis *)
  let new_x := (x * cos_y + z * sin_y) / 1000 in
  let new_z := ((- x) * sin_y + z * cos_y) / 1000 in
  let '(x, z) := (new_x, new_z) in
  (* Rotate around Z-axis *)
  let new_x := (x * cos_z - y * sin_z) / 1000 in
  let new_y := (x * sin_z + y * cos_z) / 1000 in
  let '(x, y) := (new_x, new_y) in
  Ok (x, y, z).

(** The table entries as total functions of the angle, for stating results. *)
Definition sin1000 (angle : Z) : Z := nth (Z.to_nat (angle mod 360)) SINE_TABLE 0.
Definition cos1000 (angle : Z) : Z := nth (Z.to_nat (angle mod 360)) COSINE_TABLE 0.

(** One planar rotation of the pair [(a, b)] with a given division. *)
Definition rot2 (divide : Z → Z → Z) (angle a b : Z) : Z * Z :=
  (divide (a * cos1000 angle - b * sin1000 angle) 1000,
   divide (a * sin1000 angle + b * cos1000 angle) 1000).

(** The three axis rotations the code performs: floor division, and the pair
    of the Y axis taken as [(z, x)]. *)
Definition rotate_about_x (angle : Z) (p : Point3) : Point3 :=
  let '(x, y, z) := p in
  let '(y', z') := rot2 Z.div angle y z in (x, y', z').

Definition rotate_about_y (angle : Z) (p : Point3) : Point3 :=
  let '(x, y, z) := p in
  let '(z', x') := rot2 Z.div angle z x in (x', y, z').

Definition rotate_about_z (angle : Z) (p : Point3) : Point3 :=
  let '(x, y, z) := p in
  let '(x', y') := rot2 Z.div angle x y in (x', y', z).

(** The rotation as the specification words it: truncating division
    ([Z.quot]) and the pair [(x, z)] for the Y axis. *)
Definition rotate_spec (ax ay az : Z) (p : Point3) : Point3 :=
  let '(x, y, z) := p in
  let '(y, z) := rot2 Z.quot ax y z in
  let '(x, z) := rot2 Z.quot ay x z in
  let '(x, y) := rot2 Z.quot az x y in
  (x, y, z).

(** Two points that differ by at most one unit on every axis. *)
Definition within_one (p q : Point3) : Prop :=
  let '(x, y, z) := p in
  let '(x', y', z') := q in
  Z.abs (x - x') ≤ 1 ∧ Z.abs (y - y') ≤ 1 ∧ Z.abs (z - z') ≤ 1.

(** ** Projection *)

(** [fast_project_to_2d(self, point)] *)
Definition fast_project_to_2d (s : FastRotatingCube) (point : Point3) : Point2 :=
  let '(x, y, z) := point in
  let screen_x := (x * scale s / 1000 + center_x s) / 1000 in
  let screen_y := (y * scale s / 1000 + center_y s) / 1000 in
  (screen_x, screen_y).

(** ** The matrix

    [MATRIX_WIDTH] and [MATRIX_HEIGHT] are read from the environment once, at
    import (64 by 64 unless set). *)
Class Dimensions : Type := {
  MATRIX_WIDTH : Z;
  MATRIX_HEIGHT : Z
}.

Section Renderer.
Context {dims : Dimensions}.

(** The coordinates the device has a cell for. *)
Definition on_grid (x y : Z) : Prop :=
  0 ≤ x < MATRIX_WIDTH ∧ 0 ≤ y < MATRIX_HEIGHT.

(** [self.bitmap[x, y] = v]: the device raises outside its grid. *)
Definition bitmap_setitem (b : Bitmap) (x y v : Z) : outcome Bitmap :=
  if decide (on_grid x y)
  then Ok (mkBitmap (<[(x, y) := v]> (cells b)) (writes b ++ [(x, y, v)]))
  else Raise IndexError.

(** The guard [0 <= x < MATRIX_WIDTH and 0 <= y < MATRIX_HEIGHT]. *)
Definition in_bounds (x y : Z) : bool :=
  (0 <=? x) && (x <? MATRIX_WIDTH) && (0 <=? y) && (y <? MATRIX_HEIGHT).

(** The body of the loop of [fast_clear]: one pixel back to the background. *)
Definition clear_pixel (x y : Z) (b : Bitmap) : outcome Bitmap :=
  if in_bounds x y then bitmap_setitem b x y 0 else Ok b.

(** [fast_clear(self, pixels_to_clear)].  Python iterates the set in an order
    of its own; here it is the order of [elements]. *)
Definition fast_clear (pixels_to_clear : gset (Z * Z)) (b : Bitmap) : outcome Bitmap :=
  for_each (λ '(x, y), clear_pixel x y) (elements pixels_to_clear) b.

(** [set_pixel(self, x, y, color_index)] *)
Definition set_pixel (x y color_index : Z) (b : Bitmap) : outcome Bitmap :=
  if in_bounds x y then bitmap_setitem b x y color_index else Ok b.

(** ** Construction *)

(** The attributes [__init__] sets. *)
Definition init : FastRotatingCube :=
  {| bitmap := new_bitmap;
     angle_x := 0; angle_y := 0; angle_z := 0;
     rotation_speed := 3;
     scale := Z.min MATRIX_WIDTH MATRIX_HEIGHT * 300;
     center_x := (MATRIX_WIDTH * 1000) / 2;
     center_y := (MATRIX_HEIGHT * 1000) / 2;
     previous_pixels := ∅;
     transformed_vertices := replicate 8 (0, 0) |}.

(** ** The line rasteriser *)

(** What a line works on: the bitmap and the caller's [current_pixels]. *)
Definition canvas : Type := Bitmap * gset (Z * Z).

(** The guarded store at the head of the loop of [fast_draw_line]. *)
Definition plot (x y color_index : Z) (cv : canvas) : outcome canvas :=
  if in_bounds x y then
    b ← bitmap_setitem cv.1 x y color_index;
    Ok (b, {[ (x, y) ]} ∪ cv.2)
  else Ok cv.

(** The error update of one iteration: the new [(x, y, error)]. *)
Definition line_step (dx dy x_step y_step : Z) (x y error : Z) : Z * Z * Z :=
  let error2 := 2 * error in
  let '(error, x) :=
    if error2 >? - dy then (error - dy, x + x_step) else (error, x) in
  let '(error, y) :=
    if error2 <? dx then (error + dx, y + y_step) else (error, y) in
  (x, y, error).

(** The [while True] loop of [fast_draw_line], with a step budget. *)
Fixpoint fast_draw_line_loop (fuel : nat) (dx dy x_step y_step x2 y2 color_index : Z)
    (x y error : Z) (cv : canvas) : outcome canvas :=
  match fuel with
  | O => OutOfFuel
  | S fuel' =>
      cv ← plot x y color_index cv;
      if (x =? x2) && (y =? y2) then Ok cv
      else
        let '(x, y, error) := line_step dx dy x_step y_step x y error in
        fast_draw_line_loop fuel' dx dy x_step y_step x2 y2 color_index x y error cv
  end.

(** The budget that [fast_draw_line_terminates] shows to be enough. *)
Definition line_fuel (x1 y1 x2 y2 : Z) : nat :=
  S (Z.to_nat (Z.abs (x2 - x1) + Z.abs (y2 - y1))).

(** [fast_draw_line(self, x1, y1, x2, y2, color_index, current_pixels)] *)
Definition fast_draw_line (x1 y1 x2 y2 color_index : Z) (cv : canvas) : outcome canvas :=
  let dx := Z.abs (x2 - x1) in
  let dy := Z.abs (y2 - y1) in
  let x_step := if x1 <? x2 then 1 else -1 in
  let y_step := if y1 <? y2 then 1 else -1 in
  let error := dx - dy in
  fast_draw_line_loop (line_fuel x1 y1 x2 y2) dx dy x_step y_step x2 y2 color_index
    x1 y1 error cv.

(** The positions [(x, y)] the loop stands on, in order: the loop above with
    its effects left out. *)
Fixpoint line_points (fuel : nat) (dx dy x_step y_step x2 y2 : Z) (x y error : Z)
  : list (Z * Z) :=
  match fuel with
  | O => []
  | S fuel' =>
      (x, y) ::
      if (x =? x2) && (y =? y2) then []
      else
        let '(x, y, error) := line_step dx dy x_step y_step x y error in
        line_points fuel' dx dy x_step y_step x2 y2 x y error
  end.

Definition line_path (x1 y1 x2 y2 : Z) : list (Z * Z) :=
  let dx := Z.abs (x2 - x1) in
  let dy := Z.abs (y2 - y1) in
  let x_step := if x1 <? x2 then 1 else -1 in
  let y_step := if y1 <? y2 then 1 else -1 in
  line_points (line_fuel x1 y1 x2 y2) dx dy x_step y_step x2 y2 x1 y1 (dx - dy).

(** What [plot] does when nothing raises. *)
Definition paint1 (color_index : Z) (cv : canvas) (p : Z * Z) : canvas :=
  if in_bounds p.1 p.2 then
    (mkBitmap (<[p := color_index]> (cells cv.1)) (writes cv.1 ++ [(p.1, p.2, color_index)]),
     {[ p ]} ∪ cv.2)
  else cv.

Definition paint (color_index : Z) (pts : list (Z * Z)) (cv : canvas) : canvas :=
  foldl (paint1 color_index) cv pts.

(** A staircase down to [(x2, y2)]: [staircase x2 y2 xs ys rx ry pts] says that
    [pts] starts [rx] columns and [ry] rows away from the end point (in the
    directions [xs] and [ys]), that every move takes at most one column and at
    most one row and at least one of the two, and that it ends on the end
    point. *)
Inductive staircase (x2 y2 xs ys : Z) : Z → Z → list (Z * Z) → Prop :=
| staircase_end : staircase x2 y2 xs ys 0 0 [(x2, y2)]
| staircase_move (rx ry rx' ry' : Z) (pts : list (Z * Z)) :
    0 ≤ rx' ≤ rx → 0 ≤ ry' ≤ ry →
    rx - rx' ≤ 1 → ry - ry' ≤ 1 → rx' + ry' < rx + ry →
    staircase x2 y2 xs ys rx' ry' pts →
    staircase x2 y2 xs ys rx ry ((x2 - xs * rx, y2 - ys * ry) :: pts).

(** ** One frame *)

(** The colour of an edge: 1 for the back face, 2 for the front face, 3 for
    the connecting edges. *)
Definition edge_color (edge : Z * Z) : Z :=
  if bool_decide (edge ∈ [(0, 1); (1, 2); (2, 3); (3, 0)]) then 1
  else if bool_decide (edge ∈ [(4, 5); (5, 6); (6, 7); (7, 4)]) then 2
  else 3.

(** The first loop of [fast_draw_cube]: rotate and project every vertex into
    the pre-allocated list. *)
Definition transform_vertices (s : FastRotatingCube) : outcome (list Point2) :=
  for_each
    (λ '(i, vertex) tv,
       rotated ← fast_rotate_point s vertex;
       list_setitem tv i (fast_project_to_2d s rotated))
    (enumerate vertices) (transformed_vertices s).

(** The body of the second loop: one edge. *)
Definition draw_edge (tv : list Point2) (edge : Z * Z) (cv : canvas) : outcome canvas :=
  start_vertex ← list_getitem tv edge.1;
  end_vertex ← list_getitem tv edge.2;
  let color := edge_color edge in
  fast_draw_line start_vertex.1 start_vertex.2 end_vertex.1 end_vertex.2 color cv.

(** The last step but one of [fast_draw_cube]: clear what the previous frame
    drew and this one did not. *)
Definition reconcile (previous_pixels current_pixels : gset (Z * Z)) (b : Bitmap)
  : outcome Bitmap :=
  let pixels_to_clear := previous_pixels ∖ current_pixels in
  fast_clear pixels_to_clear b.

(** [fast_draw_cube(self)] *)
Definition fast_draw_cube (s : FastRotatingCube) : outcome FastRotatingCube :=
  tv ← transform_vertices s;
  '(b, current_pixels) ← for_each (draw_edge tv) edges (bitmap s, ∅);
  b ← reconcile (previous_pixels s) current_pixels b;
  Ok {| bitmap := b;
        angle_x := angle_x s; angle_y := angle_y s; angle_z := angle_z s;
        rotation_speed := rotation_speed s;
        scale := scale s; center_x := center_x s; center_y := center_y s;
        previous_pixels := current_pixels;
        transformed_vertices := tv |}.

(** [update_rotation(self)] *)
Definition update_rotation (s : FastRotatingCube) : FastRotatingCube :=
  set_angles
    ((angle_x s + rotation_speed s) mod 360)
    ((angle_y s + int_of_float (PrimFloat.mul (float_of_int (rotation_speed s)) f0_7)) mod 360)
    ((angle_z s + int_of_float (PrimFloat.mul (float_of_int (rotation_speed s)) f0_5)) mod 360)
    s.

(** One cycle of the animation loop, its clock and printing aside: draw, then
    advance the angles. *)
Definition cycle (s : FastRotatingCube) : outcome FastRotatingCube :=
  s ← fast_draw_cube s;
  Ok (update_rotation s).

(** [n] cycles in a row. *)
Fixpoint cycles (n : nat) (s : FastRotatingCube) : outcome FastRotatingCube :=
  match n with
  | O => Ok s
  | S n' => s ← cycle s; cycles n' s
  end.

(** ** The animation driver *)

(** The two nested [range] loops that store 0 in every cell. *)
Definition clear_display (b : Bitmap) : outcome Bitmap :=
  for_each
    (λ y, for_each (λ x b, bitmap_setitem b x y 0) (range MATRIX_WIDTH))
    (range MATRIX_HEIGHT) b.

(** What the world does to one iteration of [while True].  The clock and the
    keyboard are outside the program: a run is driven by one [tick] per
    iteration.  [CtrlC mid] is a [KeyboardInterrupt] raised somewhere inside
    the iteration, [mid] being the state of the object at that moment. *)
Inductive tick : Type :=
| Run
| Elapsed
| CtrlC (mid : FastRotatingCube).

(** How the [try] block is left. *)
Inductive loop_exit : Type :=
| Break (s : FastRotatingCube)
| Interrupted (s : FastRotatingCube)
| Failed (e : exn)
| StillRunning.

Fixpoint animation_loop (ticks : list tick) (s : FastRotatingCube) : loop_exit :=
  match ticks with
  | [] => StillRunning
  | Elapsed :: _ => Break s
  | CtrlC mid :: _ => Interrupted mid
  | Run :: ticks' =>
      match cycle s with
      | Ok s' => animation_loop ticks' s'
      | Raise e => Failed e
      | OutOfFuel => StillRunning
      end
  end.

(** [run_animation(self, duration)]: the initial clear, the loop in its
    [try], [except KeyboardInterrupt] and the [finally] that clears again. *)
Definition run_animation (ticks : list tick) (s : FastRotatingCube)
  : outcome FastRotatingCube :=
  b ← clear_display (bitmap s);
  match animation_loop ticks (set_bitmap b s) with
  | Break s' | Interrupted s' =>
      b' ← clear_display (bitmap s');
      Ok (set_bitmap b' s')
  | Failed e => Raise e
  | StillRunning => OutOfFuel
  end.

(** Some tick stops the loop. *)
Definition stops (ticks : list tick) : bool :=
  existsb (λ t, match t with Run => false | _ => true end) ticks.

(** ** Vocabulary of the statements *)

(** Neighbours on the grid, diagonals included. *)
Definition adjacent (p q : Z * Z) : Prop :=
  Z.max (Z.abs (q.1 - p.1)) (Z.abs (q.2 - p.2)) = 1.

(** Every point of a path is a neighbour of the one before it. *)
Fixpoint connected (path : list (Z * Z)) : Prop :=
  match path with
  | p :: (q :: _) as rest => adjacent p q ∧ connected rest
  | _ => True
  end.

(** The stores a call added to the device. *)
Definition stores_since (b b' : Bitmap) : list store :=
  drop (length (writes b)) (writes b').

(** Every cell of the grid reads the background colour. *)
Definition all_background (b : Bitmap) : Prop :=
  ∀ x y, on_grid x y → pixel b x y = 0.

(** The lit pixels are exactly the previous-frame set. *)
Definition lit_is_previous (s : FastRotatingCube) : Prop :=
  ∀ x y, (x, y) ∈ previous_pixels s ↔ (on_grid x y ∧ pixel (bitmap s) x y ≠ 0).

(** Every lit pixel is in the previous-frame set. *)
Definition lit_in_previous (s : FastRotatingCube) : Prop :=
  ∀ x y, on_grid x y → pixel (bitmap s) x y ≠ 0 → (x, y) ∈ previous_pixels s.

(** A canvas in the middle of a frame that started on the bitmap [b0]: the
    recorded pixels are on the grid and lit, the others are as in [b0]. *)
Definition drawn_over (b0 : Bitmap) (cv : canvas) : Prop :=
  (∀ x y, (x, y) ∈ cv.2 → on_grid x y ∧ pixel cv.1 x y ≠ 0) ∧
  (∀ x y, (x, y) ∉ cv.2 → pixel cv.1 x y = pixel b0 x y).

(** The three angles are wrapped. *)
Definition angles_wrapped (s : FastRotatingCube) : Prop :=
  0 ≤ angle_x s < 360 ∧ 0 ≤ angle_y s < 360 ∧ 0 ≤ angle_z s < 360.

(** The projection attributes are the ones [__init__] computes. *)
Definition configured (s : FastRotatingCube) : Prop :=
  scale s = Z.min MATRIX_WIDTH MATRIX_HEIGHT * 300 ∧
  center_x s = (MATRIX_WIDTH * 1000) / 2 ∧
  center_y s = (MATRIX_HEIGHT * 1000) / 2.

(** The pre-allocated list has its eight slots, and the speed is an integer
    of a size for which [float_of_int] is Python's conversion. *)
Definition well_formed (s : FastRotatingCube) : Prop :=
  length (transformed_vertices s) = 8%nat ∧ Z.abs (rotation_speed s) < 2 ^ 63.

End Renderer.

(** The default matrix. *)
Definition matrix_64 : Dimensions := {| MATRIX_WIDTH := 64; MATRIX_HEIGHT := 64 |}.

(** ** Vocabulary of the further properties *)

(** The advances of the Y and Z angles for a speed:
    [int(rotation_speed * 0.7)] and [int(rotation_speed * 0.5)]. *)
Definition advance_y (speed : Z) : Z :=
  int_of_float (PrimFloat.mul (float_of_int speed) f0_7).
Definition advance_z (speed : Z) : Z :=
  int_of_float (PrimFloat.mul (float_of_int speed) f0_5).

(** What [fast_rotate_point] returns, as a total function. *)
Definition rotated (s : FastRotatingCube) (p : Point3) : Point3 :=
  rotate_about_z (angle_z s) (rotate_about_y (angle_y s) (rotate_about_x (angle_x s) p)).

(** The positions of the line of an edge between two slots of the transformed
    vertices. *)
Definition edge_path (tv : list Point2) (edge : Z * Z) : list (Z * Z) :=
  let start_vertex := nth (Z.to_nat edge.1) tv (0, 0) in
  let end_vertex := nth (Z.to_nat edge.2) tv (0, 0) in
  line_path start_vertex.1 start_vertex.2 end_vertex.1 end_vertex.2.


(** The eight vertices, rotated and projected: what a frame leaves in
    [transformed_vertices]. *)
Definition projected (s : FastRotatingCube) : list Point2 :=
  (λ v, fast_project_to_2d s (rotated s v)) <$> vertices.

Section FurtherVocabulary.
Context {dims : Dimensions}.

(** What the twelve lines of a frame leave on a canvas. *)
Definition frame_canvas (s : FastRotatingCube) (cv : canvas) : canvas :=
  foldl (λ cv e, paint (edge_color e) (edge_path (projected s) e) cv) cv edges.

(** What [fast_draw_cube] leaves of a well-formed object. *)
Definition drawn_frame (s : FastRotatingCube) : FastRotatingCube :=
  let cv := frame_canvas s (bitmap s, ∅) in
  {| bitmap := (paint 0 (elements (previous_pixels s ∖ cv.2)) (cv.1, ∅)).1;
     angle_x := angle_x s; angle_y := angle_y s; angle_z := angle_z s;
     rotation_speed := rotation_speed s;
     scale := scale s; center_x := center_x s; center_y := center_y s;
     previous_pixels := cv.2;
     transformed_vertices := projected s |}.

(** Two canvases that record the same pixels and show the same colours on
    them. *)
Definition same_drawing (cv cv' : canvas) : Prop :=
  cv.2 = cv'.2 ∧ ∀ x y, (x, y) ∈ cv.2 → pixel cv.1 x y = pixel cv'.1 x y.

(** Two objects that show the same picture: the same pixel values all over
    the grid, and the same previous-frame set. *)
Definition same_picture (s s' : FastRotatingCube) : Prop :=
  previous_pixels s = previous_pixels s' ∧
  ∀ x y, on_grid x y → pixel (bitmap s) x y = pixel (bitmap s') x y.

(** Two objects whose angles agree modulo 360 and whose other attributes
    agree. *)
Definition same_pose (s s' : FastRotatingCube) : Prop :=
  angle_x s mod 360 = angle_x s' mod 360 ∧
  angle_y s mod 360 = angle_y s' mod 360 ∧
  angle_z s mod 360 = angle_z s' mod 360 ∧
  rotation_speed s = rotation_speed s' ∧
  scale s = scale s' ∧ center_x s = center_x s' ∧ center_y s = center_y s'.


End FurtherVocabulary.


(** * Properties *)

(** ** The monad and the Python lists *)

Lemma bind_Ok {A B : Type} (a : A) (f : A → outcome B) : (Ok a ≫= f) = f a.
Proof. reflexivity. Qed.

Lemma bind_Ok_inv {A B : Type} (m : outcome A) (f : A → outcome B) (b : B) :
  (m ≫= f) = Ok b → ∃ a, m = Ok a ∧ f a = Ok b.
Proof. destruct m as [a| |]; simpl; [eauto | discriminate | discriminate]. Qed.

Lemma list_getitem_nth {A : Type} (l : list A) (i : Z) (d : A) :
  0 ≤ i < Z.of_nat (length l) →
  list_getitem l i = Ok (nth (Z.to_nat i) l d).
Proof.
  intros Hi. unfold list_getitem, py_index.
  destruct (Z.ltb_spec i 0) as [?|_]; [lia|].
  destruct (Z.leb_spec 0 i) as [_|?]; [|lia].
  destruct (Z.ltb_spec i (Z.of_nat (length l))) as [_|?]; [|lia].
  simpl. rewrite nth_lookup.
  destruct (lookup_lt_is_Some_2 l (Z.to_nat i)) as [a Ha]; [lia|].
  rewrite Ha. reflexivity.
Qed.

Lemma list_setitem_insert {A : Type} (l : list A) (i : Z) (v : A) :
  0 ≤ i < Z.of_nat (length l) →
  list_setitem l i v = Ok (<[Z.to_nat i := v]> l).
Proof.
  intros Hi. unfold list_setitem, py_index.
  destruct (Z.ltb_spec i 0) as [?|_]; [lia|].
  destruct (Z.leb_spec 0 i) as [_|?]; [|lia].
  destruct (Z.ltb_spec i (Z.of_nat (length l))) as [_|?]; [|lia].
  reflexivity.
Qed.

(** ** The tables *)

Lemma SINE_TABLE_length : length SINE_TABLE = 360%nat.
Proof. reflexivity. Qed.

Lemma COSINE_TABLE_length : length COSINE_TABLE = 360%nat.
Proof. reflexivity. Qed.

(** A lookup at [angle % 360] never raises. *)
Lemma SINE_TABLE_getitem (angle : Z) :
  list_getitem SINE_TABLE (angle mod 360) = Ok (sin1000 angle).
Proof.
  apply list_getitem_nth. rewrite SINE_TABLE_length.
  pose proof (Z.mod_pos_bound angle 360). lia.
Qed.

Lemma COSINE_TABLE_getitem (angle : Z) :
  list_getitem COSINE_TABLE (angle mod 360) = Ok (cos1000 angle).
Proof.
  apply list_getitem_nth. rewrite COSINE_TABLE_length.
  pose proof (Z.mod_pos_bound angle 360). lia.
Qed.

Lemma sin1000_full_turn : sin1000 360 = 0.
Proof. reflexivity. Qed.

Lemma cos1000_full_turn : cos1000 360 = 1000.
Proof. reflexivity. Qed.

(** ** Rotation *)

(** The closed form of [fast_rotate_point]: it never raises, and its result
    is the three axis rotations composed. *)
Lemma fast_rotate_point_eq (s : FastRotatingCube) (p : Point3) :
  fast_rotate_point s p =
  Ok (rotate_about_z (angle_z s) (rotate_about_y (angle_y s) (rotate_about_x (angle_x s) p))).
Proof.
  destruct p as [[x y] z]. unfold fast_rotate_point.
  rewrite !SINE_TABLE_getitem, !COSINE_TABLE_getitem, !bind_Ok.
  unfold rotate_about_x, rotate_about_y, rotate_about_z, rot2.
  cbv zeta beta iota.
  set (z1 := (y * sin1000 (angle_x s) + z * cos1000 (angle_x s)) / 1000).
  replace (x * cos1000 (angle_y s) + z1 * sin1000 (angle_y s))
    with (z1 * sin1000 (angle_y s) + x * cos1000 (angle_y s)) by ring.
  replace (- x * sin1000 (angle_y s) + z1 * cos1000 (angle_y s))
    with (z1 * cos1000 (angle_y s) - x * sin1000 (angle_y s)) by ring.
  reflexivity.
Qed.

(** Only the angles of the object matter to the rotation. *)
Lemma fast_rotate_point_angles (s s' : FastRotatingCube) (p : Point3) :
  angle_x s mod 360 = angle_x s' mod 360 →
  angle_y s mod 360 = angle_y s' mod 360 →
  angle_z s mod 360 = angle_z s' mod 360 →
  fast_rotate_point s p = fast_rotate_point s' p.
Proof.
  intros Hx Hy Hz. destruct p as [[x y] z]. unfold fast_rotate_point.
  rewrite Hx, Hy, Hz. reflexivity.
Qed.

(** A rotation by 360 degrees on every axis is the identity, exactly. *)
Lemma fast_rotate_point_full_turn (s : FastRotatingCube) (p : Point3) :
  fast_rotate_point (set_angles 360 360 360 s) p = Ok p.
Proof.
  rewrite fast_rotate_point_eq. destruct p as [[x y] z]. simpl.
  unfold rot2. rewrite sin1000_full_turn, cos1000_full_turn.
  repeat first
    [ rewrite Z.mul_0_r | rewrite Z.sub_0_r | rewrite Z.add_0_r
    | rewrite Z.add_0_l | rewrite Z.div_mul by lia ].
  reflexivity.
Qed.

(** ** The line rasteriser *)

Section Line.
Context {dims : Dimensions}.

Lemma in_bounds_on_grid (x y : Z) : in_bounds x y = true ↔ on_grid x y.
Proof.
  unfold in_bounds, on_grid.
  rewrite !andb_true_iff, !Z.leb_le, !Z.ltb_lt. tauto.
Qed.

Lemma in_bounds_false (x y : Z) : in_bounds x y = false ↔ ¬ on_grid x y.
Proof.
  rewrite <- in_bounds_on_grid. destruct (in_bounds x y); split; congruence.
Qed.

(** Under the guard the device never raises. *)
Lemma plot_paint1 (x y c : Z) (cv : canvas) :
  plot x y c cv = Ok (paint1 c cv (x, y)).
Proof.
  unfold plot, paint1, bitmap_setitem. simpl.
  destruct (in_bounds x y) eqn:Hb; [|reflexivity].
  apply in_bounds_on_grid in Hb.
  destruct (decide (on_grid x y)) as [_|Hn]; [reflexivity | contradiction].
Qed.

Section Loop.
Variables dx dy x_step y_step x2 y2 : Z.
Hypothesis x_step_unit : x_step = 1 ∨ x_step = -1.
Hypothesis y_step_unit : y_step = 1 ∨ y_step = -1.

(** The state of the loop when [rx] columns and [ry] rows remain. *)
Local Abbreviation at_x rx := (x2 - x_step * rx) (only parsing).
Local Abbreviation at_y ry := (y2 - y_step * ry) (only parsing).
Local Abbreviation error_at rx ry := (dx - dy + rx * dy - ry * dx) (only parsing).

(** One iteration away from the end point moves toward it: by at most one
    column and one row, by at least one of them, and never past the end. *)
Lemma line_step_toward (rx ry : Z) :
  0 ≤ rx ≤ dx → 0 ≤ ry ≤ dy → 0 < rx + ry →
  ∃ rx' ry',
    line_step dx dy x_step y_step (at_x rx) (at_y ry) (error_at rx ry)
      = (at_x rx', at_y ry', error_at rx' ry') ∧
    0 ≤ rx' ≤ rx ∧ 0 ≤ ry' ≤ ry ∧
    rx - rx' ≤ 1 ∧ ry - ry' ≤ 1 ∧ rx' + ry' < rx + ry.
Proof.
  intros Hrx Hry Hpos. unfold line_step.
  rewrite Z.gtb_ltb.
  destruct (Z.ltb_spec (- dy) (2 * (dx - dy + rx * dy - ry * dx))) as [Hx|Hx];
    destruct (Z.ltb_spec (2 * (dx - dy + rx * dy - ry * dx)) dx) as [Hy|Hy].
  - assert (0 < rx) by (destruct (Z.eq_dec rx 0); [subst; nia | lia]).
    assert (0 < ry) by (destruct (Z.eq_dec ry 0); [subst; nia | lia]).
    exists (rx - 1), (ry - 1). split; [f_equal; [f_equal|]; ring | lia].
  - assert (0 < rx) by (destruct (Z.eq_dec rx 0); [subst; nia | lia]).
    exists (rx - 1), ry. split; [f_equal; [f_equal|]; ring | lia].
  - assert (0 < ry) by (destruct (Z.eq_dec ry 0); [subst; nia | lia]).
    exists rx, (ry - 1). split; [f_equal; [f_equal|]; ring | lia].
  - exfalso. nia.
Qed.

Lemma at_end (rx ry : Z) :
  0 ≤ rx → 0 ≤ ry →
  ((at_x rx =? x2) && (at_y ry =? y2) = true ↔ rx = 0 ∧ ry = 0).
Proof.
  intros Hrx Hry.
  rewrite andb_true_iff, !Z.eqb_eq.
  destruct x_step_unit, y_step_unit; subst; lia.
Qed.

Lemma not_at_end (rx ry : Z) :
  0 ≤ rx → 0 ≤ ry →
  (at_x rx =? x2) && (at_y ry =? y2) = false → 0 < rx + ry.
Proof.
  intros Hrx Hry Hend.
  destruct (Z.eq_dec (rx + ry) 0) as [H0|]; [|lia].
  assert ((at_x rx =? x2) && (at_y ry =? y2) = true) as Ht
    by (apply at_end; lia).
  congruence.
Qed.

(** With a budget above the remaining distance the positions of the loop
    form a staircase down to the end point. *)
Lemma line_points_staircase (fuel : nat) (rx ry : Z) :
  0 ≤ rx ≤ dx → 0 ≤ ry ≤ dy → rx + ry < Z.of_nat fuel →
  staircase x2 y2 x_step y_step rx ry
    (line_points fuel dx dy x_step y_step x2 y2 (at_x rx) (at_y ry) (error_at rx ry)).
Proof.
  revert rx ry. induction fuel as [|fuel IH]; intros rx ry Hrx Hry Hfuel; [lia|].
  simpl line_points.
  destruct ((at_x rx =? x2) && (at_y ry =? y2)) eqn:Hend.
  - apply at_end in Hend as [-> ->]; [|lia|lia].
    rewrite !Z.mul_0_r, !Z.sub_0_r. constructor.
  - assert (0 < rx + ry) as Hpos by (apply not_at_end; [lia | lia | exact Hend]).
    destruct (line_step_toward rx ry Hrx Hry Hpos)
      as (rx' & ry' & -> & ? & ? & ? & ? & ?).
    apply staircase_move with (rx' := rx') (ry' := ry'); try lia.
    apply IH; lia.
Qed.

(** With such a budget the loop ends, never raises, and has painted the
    positions it stood on. *)
Lemma fast_draw_line_loop_paint (fuel : nat) (rx ry c : Z) (cv : canvas) :
  0 ≤ rx ≤ dx → 0 ≤ ry ≤ dy → rx + ry < Z.of_nat fuel →
  fast_draw_line_loop fuel dx dy x_step y_step x2 y2 c
    (at_x rx) (at_y ry) (error_at rx ry) cv
  = Ok (paint c
      (line_points fuel dx dy x_step y_step x2 y2 (at_x rx) (at_y ry) (error_at rx ry))
      cv).
Proof.
  revert rx ry cv. induction fuel as [|fuel IH]; intros rx ry cv Hrx Hry Hfuel; [lia|].
  simpl fast_draw_line_loop. simpl line_points.
  rewrite plot_paint1, bind_Ok.
  destruct ((at_x rx =? x2) && (at_y ry =? y2)) eqn:Hend; [reflexivity|].
  assert (0 < rx + ry) as Hpos by (apply not_at_end; [lia | lia | exact Hend]).
  destruct (line_step_toward rx ry Hrx Hry Hpos)
    as (rx' & ry' & -> & ? & ? & ? & ? & ?).
  rewrite IH by lia. reflexivity.
Qed.

(** More budget than needed changes nothing. *)
Lemma line_points_more_fuel (fuel fuel' : nat) (rx ry : Z) :
  0 ≤ rx ≤ dx → 0 ≤ ry ≤ dy → rx + ry < Z.of_nat fuel → (fuel ≤ fuel')%nat →
  line_points fuel' dx dy x_step y_step x2 y2 (at_x rx) (at_y ry) (error_at rx ry)
  = line_points fuel dx dy x_step y_step x2 y2 (at_x rx) (at_y ry) (error_at rx ry).
Proof.
  revert fuel' rx ry.
  induction fuel as [|fuel IH]; intros fuel' rx ry Hrx Hry Hfuel Hle; [lia|].
  destruct fuel' as [|fuel']; [lia|].
  simpl line_points.
  destruct ((at_x rx =? x2) && (at_y ry =? y2)) eqn:Hend; [reflexivity|].
  assert (0 < rx + ry) as Hpos by (apply not_at_end; [lia | lia | exact Hend]).
  destruct (line_step_toward rx ry Hrx Hry Hpos)
    as (rx' & ry' & -> & ? & ? & ? & ? & ?).
  f_equal. apply IH; lia.
Qed.

End Loop.

(** *** What a staircase is like *)

Section Staircase.
Variables x2 y2 xs ys : Z.
Hypothesis xs_unit : xs = 1 ∨ xs = -1.
Hypothesis ys_unit : ys = 1 ∨ ys = -1.

Lemma staircase_head (rx ry : Z) (pts : list (Z * Z)) :
  staircase x2 y2 xs ys rx ry pts →
  head pts = Some (x2 - xs * rx, y2 - ys * ry).
Proof.
  destruct 1; simpl; [|reflexivity].
  rewrite !Z.mul_0_r, !Z.sub_0_r. reflexivity.
Qed.

Lemma staircase_last (rx ry : Z) (pts : list (Z * Z)) :
  staircase x2 y2 xs ys rx ry pts → last pts = Some (x2, y2).
Proof.
  induction 1 as [|rx ry rx' ry' pts ? ? ? ? ? Hst IH]; [reflexivity|].
  destruct Hst; exact IH.
Qed.

Lemma staircase_connected (rx ry : Z) (pts : list (Z * Z)) :
  staircase x2 y2 xs ys rx ry pts → connected pts.
Proof.
  induction 1 as [|rx ry rx' ry' pts ? ? ? ? ? Hst IH]; [exact I|].
  pose proof (staircase_head _ _ _ Hst) as Hhd.
  destruct pts as [|q rest]; [discriminate|].
  simpl in Hhd. injection Hhd as ->.
  split; [|exact IH].
  unfold adjacent. simpl.
  destruct xs_unit, ys_unit; subst; lia.
Qed.

(** Every position is some [rx'] columns and [ry'] rows from the end, no
    farther than the first one. *)
Lemma staircase_within (rx ry : Z) (pts : list (Z * Z)) (p : Z * Z) :
  staircase x2 y2 xs ys rx ry pts → p ∈ pts →
  ∃ rx' ry', 0 ≤ rx' ≤ rx ∧ 0 ≤ ry' ≤ ry ∧ p = (x2 - xs * rx', y2 - ys * ry').
Proof.
  induction 1 as [|rx ry rx' ry' pts ? ? ? ? ? Hst IH]; intros Hin.
  - apply list_elem_of_singleton in Hin as ->.
    exists 0, 0. rewrite !Z.mul_0_r, !Z.sub_0_r. repeat split; lia.
  - apply elem_of_cons in Hin as [->|Hin].
    + exists rx, ry. repeat split; lia.
    + destruct (IH Hin) as (rx'' & ry'' & ? & ? & ->).
      exists rx'', ry''. repeat split; lia.
Qed.

Lemma staircase_NoDup (rx ry : Z) (pts : list (Z * Z)) :
  staircase x2 y2 xs ys rx ry pts → NoDup pts.
Proof.
  induction 1 as [|rx ry rx' ry' pts ? ? ? ? ? Hst IH].
  - apply NoDup_singleton.
  - constructor; [|exact IH].
    intros Hin.
    destruct (staircase_within _ _ _ _ Hst Hin) as (rx'' & ry'' & ? & ? & Heq).
    injection Heq as Hx Hy.
    destruct xs_unit, ys_unit; subst; lia.
Qed.

Lemma staircase_length (rx ry : Z) (pts : list (Z * Z)) :
  staircase x2 y2 xs ys rx ry pts →
  Z.max rx ry + 1 ≤ Z.of_nat (length pts) ≤ rx + ry + 1.
Proof.
  induction 1 as [|rx ry rx' ry' pts ? ? ? ? ? Hst IH]; simpl length; lia.
Qed.

End Staircase.

(** *** The whole line *)

Lemma line_start (x1 x2 : Z) :
  x1 = x2 - (if x1 <? x2 then 1 else -1) * Z.abs (x2 - x1).
Proof. destruct (Z.ltb_spec x1 x2); lia. Qed.

Lemma line_step_unit (x1 x2 : Z) :
  (if x1 <? x2 then 1 else -1) = 1 ∨ (if x1 <? x2 then 1 else -1) = -1.
Proof. destruct (x1 <? x2); auto. Qed.

Lemma line_fuel_enough (x1 y1 x2 y2 : Z) :
  Z.abs (x2 - x1) + Z.abs (y2 - y1) < Z.of_nat (line_fuel x1 y1 x2 y2).
Proof. unfold line_fuel. lia. Qed.

(** The positions of a line form a staircase from the start point to the end
    point. *)
Lemma line_path_staircase (x1 y1 x2 y2 : Z) :
  staircase x2 y2 (if x1 <? x2 then 1 else -1) (if y1 <? y2 then 1 else -1)
    (Z.abs (x2 - x1)) (Z.abs (y2 - y1)) (line_path x1 y1 x2 y2).
Proof.
  unfold line_path.
  pose proof (line_points_staircase (Z.abs (x2 - x1)) (Z.abs (y2 - y1))
    (if x1 <? x2 then 1 else -1) (if y1 <? y2 then 1 else -1) x2 y2
    (line_step_unit x1 x2) (line_step_unit y1 y2)
    (line_fuel x1 y1 x2 y2) (Z.abs (x2 - x1)) (Z.abs (y2 - y1))) as Hst.
  cbv beta in Hst.
  rewrite <- (line_start x1 x2), <- (line_start y1 y2) in Hst.
  replace (Z.abs (x2 - x1) - Z.abs (y2 - y1) + Z.abs (x2 - x1) * Z.abs (y2 - y1)
           - Z.abs (y2 - y1) * Z.abs (x2 - x1))
    with (Z.abs (x2 - x1) - Z.abs (y2 - y1)) in Hst by ring.
  apply Hst; [lia | lia | apply line_fuel_enough].
Qed.

(** [fast_draw_line] always runs to completion without raising, and what it
    leaves is the starting canvas with the positions of the line painted. *)
Lemma fast_draw_line_paint (x1 y1 x2 y2 c : Z) (cv : canvas) :
  fast_draw_line x1 y1 x2 y2 c cv = Ok (paint c (line_path x1 y1 x2 y2) cv).
Proof.
  unfold fast_draw_line, line_path.
  pose proof (fast_draw_line_loop_paint (Z.abs (x2 - x1)) (Z.abs (y2 - y1))
    (if x1 <? x2 then 1 else -1) (if y1 <? y2 then 1 else -1) x2 y2
    (line_step_unit x1 x2) (line_step_unit y1 y2)
    (line_fuel x1 y1 x2 y2) (Z.abs (x2 - x1)) (Z.abs (y2 - y1)) c cv) as Hp.
  cbv beta in Hp.
  rewrite <- (line_start x1 x2), <- (line_start y1 y2) in Hp.
  replace (Z.abs (x2 - x1) - Z.abs (y2 - y1) + Z.abs (x2 - x1) * Z.abs (y2 - y1)
           - Z.abs (y2 - y1) * Z.abs (x2 - x1))
    with (Z.abs (x2 - x1) - Z.abs (y2 - y1)) in Hp by ring.
  apply Hp; [lia | lia | apply line_fuel_enough].
Qed.

(** Any larger budget gives the loop the same result. *)
Lemma fast_draw_line_loop_enough (fuel : nat) (x1 y1 x2 y2 c : Z) (cv : canvas) :
  (line_fuel x1 y1 x2 y2 ≤ fuel)%nat →
  fast_draw_line_loop fuel (Z.abs (x2 - x1)) (Z.abs (y2 - y1))
    (if x1 <? x2 then 1 else -1) (if y1 <? y2 then 1 else -1) x2 y2 c
    x1 y1 (Z.abs (x2 - x1) - Z.abs (y2 - y1)) cv
  = fast_draw_line x1 y1 x2 y2 c cv.
Proof.
  intros Hfuel. rewrite fast_draw_line_paint. unfold line_path.
  pose proof (line_fuel_enough x1 y1 x2 y2) as Hen.
  pose proof (fast_draw_line_loop_paint (Z.abs (x2 - x1)) (Z.abs (y2 - y1))
    (if x1 <? x2 then 1 else -1) (if y1 <? y2 then 1 else -1) x2 y2
    (line_step_unit x1 x2) (line_step_unit y1 y2)
    fuel (Z.abs (x2 - x1)) (Z.abs (y2 - y1)) c cv) as Hp.
  pose proof (line_points_more_fuel (Z.abs (x2 - x1)) (Z.abs (y2 - y1))
    (if x1 <? x2 then 1 else -1) (if y1 <? y2 then 1 else -1) x2 y2
    (line_step_unit x1 x2) (line_step_unit y1 y2)
    (line_fuel x1 y1 x2 y2) fuel (Z.abs (x2 - x1)) (Z.abs (y2 - y1))) as Hm.
  cbv beta in Hp, Hm.
  rewrite <- (line_start x1 x2), <- (line_start y1 y2) in Hp, Hm.
  replace (Z.abs (x2 - x1) - Z.abs (y2 - y1) + Z.abs (x2 - x1) * Z.abs (y2 - y1)
           - Z.abs (y2 - y1) * Z.abs (x2 - x1))
    with (Z.abs (x2 - x1) - Z.abs (y2 - y1)) in Hp, Hm by ring.
  rewrite Hp by lia. rewrite Hm by lia. reflexivity.
Qed.

(** Every position of a line lies in the box spanned by its end points. *)
Lemma line_path_in_box (x1 y1 x2 y2 : Z) (p : Z * Z) :
  p ∈ line_path x1 y1 x2 y2 →
  Z.min x1 x2 ≤ p.1 ≤ Z.max x1 x2 ∧ Z.min y1 y2 ≤ p.2 ≤ Z.max y1 y2.
Proof.
  intros Hin.
  destruct (staircase_within _ _ _ _ _ _ _ _ (line_path_staircase x1 y1 x2 y2) Hin)
    as (rx & ry & Hrx & Hry & ->). simpl.
  destruct (Z.ltb_spec x1 x2), (Z.ltb_spec y1 y2); lia.
Qed.

(** *** Painting *)

Lemma paint_cons (c : Z) (p : Z * Z) (pts : list (Z * Z)) (cv : canvas) :
  paint c (p :: pts) cv = paint c pts (paint1 c cv p).
Proof. reflexivity. Qed.

Lemma paint1_off_grid (c : Z) (cv : canvas) (p : Z * Z) :
  ¬ on_grid p.1 p.2 → paint1 c cv p = cv.
Proof.
  intros Hp. unfold paint1.
  apply in_bounds_false in Hp. rewrite Hp. reflexivity.
Qed.

Lemma paint1_on_grid (c : Z) (cv : canvas) (p : Z * Z) :
  on_grid p.1 p.2 →
  paint1 c cv p =
  (mkBitmap (<[p := c]> (cells cv.1)) (writes cv.1 ++ [(p.1, p.2, c)]), {[ p ]} ∪ cv.2).
Proof.
  intros Hp. unfold paint1.
  apply in_bounds_on_grid in Hp. rewrite Hp. reflexivity.
Qed.

(** Positions off the grid leave no trace at all. *)
Lemma paint_off_grid (c : Z) (pts : list (Z * Z)) (cv : canvas) :
  Forall (λ p, ¬ on_grid p.1 p.2) pts → paint c pts cv = cv.
Proof.
  induction 1 as [|p pts Hp _ IH]; [reflexivity|].
  rewrite paint_cons, paint1_off_grid by exact Hp. exact IH.
Qed.

(** On the grid every position is stored, in order, and recorded. *)
Lemma paint_on_grid_writes (c : Z) (pts : list (Z * Z)) (cv : canvas) :
  Forall (λ p, on_grid p.1 p.2) pts →
  writes (paint c pts cv).1 = writes cv.1 ++ map (λ p, (p.1, p.2, c)) pts.
Proof.
  intros Hall. revert cv.
  induction Hall as [|p pts Hp _ IH]; intros cv.
  - simpl. rewrite app_nil_r. reflexivity.
  - rewrite paint_cons, IH, paint1_on_grid by exact Hp.
    simpl. rewrite <- app_assoc. reflexivity.
Qed.

(** The set gains exactly the positions that are on the grid. *)
Lemma paint_set (c : Z) (pts : list (Z * Z)) (cv : canvas) (q : Z * Z) :
  q ∈ (paint c pts cv).2 ↔ q ∈ cv.2 ∨ (q ∈ pts ∧ on_grid q.1 q.2).
Proof.
  revert cv. induction pts as [|p pts IH]; intros cv.
  - simpl. rewrite elem_of_nil. tauto.
  - rewrite paint_cons, IH, elem_of_cons.
    destruct (decide (on_grid p.1 p.2)) as [Hp|Hp].
    + rewrite paint1_on_grid by exact Hp. simpl.
      rewrite elem_of_union, elem_of_singleton.
      split; [intros [[->|?]|[? ?]]; auto | intros [?|[[->|?] ?]]; auto].
    + rewrite paint1_off_grid by exact Hp.
      split; [intros [?|[? ?]]; auto | intros [?|[[->|?] ?]]; auto].
      contradiction.
Qed.

Lemma pixel_insert_eq (m : gmap (Z * Z) Z) (w : list store) (x y c : Z) :
  pixel (mkBitmap (<[(x, y) := c]> m) w) x y = c.
Proof. unfold pixel. simpl. rewrite lookup_insert_eq. reflexivity. Qed.

Lemma pixel_insert_ne (m : gmap (Z * Z) Z) (w w' : list store) (p : Z * Z) (x y c : Z) :
  p ≠ (x, y) →
  pixel (mkBitmap (<[p := c]> m) w) x y = pixel (mkBitmap m w') x y.
Proof. intros Hne. unfold pixel. simpl. rewrite lookup_insert_ne by exact Hne. reflexivity. Qed.

(** A pixel that no position on the grid names keeps its value. *)
Lemma paint_pixel_other (c : Z) (pts : list (Z * Z)) (cv : canvas) (x y : Z) :
  ((x, y) ∉ pts ∨ ¬ on_grid x y) →
  pixel (paint c pts cv).1 x y = pixel cv.1 x y.
Proof.
  revert cv. induction pts as [|p pts IH]; intros cv Hq; [reflexivity|].
  rewrite paint_cons, IH.
  - destruct (decide (on_grid p.1 p.2)) as [Hp|Hp].
    + rewrite paint1_on_grid by exact Hp. simpl.
      destruct cv as [[m w] px]. simpl.
      apply pixel_insert_ne. intros ->. simpl in Hp.
      destruct Hq as [Hq|Hq]; [|contradiction].
      apply Hq. left.
    + rewrite paint1_off_grid by exact Hp. reflexivity.
  - destruct Hq as [Hq|Hq]; [left|right; exact Hq].
    intros Hin. apply Hq. right. exact Hin.
Qed.

(** A pixel that a position on the grid names ends with the colour. *)
Lemma paint_pixel_painted (c : Z) (pts : list (Z * Z)) (cv : canvas) (x y : Z) :
  (x, y) ∈ pts → on_grid x y →
  pixel (paint c pts cv).1 x y = c.
Proof.
  revert cv. induction pts as [|p pts IH]; intros cv Hin Hg.
  - apply elem_of_nil in Hin as [].
  - rewrite paint_cons.
    destruct (decide ((x, y) ∈ pts)) as [Hin'|Hnin]; [apply IH; assumption|].
    apply elem_of_cons in Hin as [<-|Hin]; [|contradiction].
    rewrite paint_pixel_other by (left; exact Hnin).
    rewrite paint1_on_grid by exact Hg. simpl.
    apply pixel_insert_eq.
Qed.

(** The stores of a painting: the positions on the grid, in order. *)
Lemma paint_writes (c : Z) (pts : list (Z * Z)) (cv : canvas) :
  writes (paint c pts cv).1 =
  writes cv.1 ++ map (λ p, (p.1, p.2, c)) (filter (λ p, on_grid p.1 p.2) pts).
Proof.
  revert cv. induction pts as [|p pts IH]; intros cv.
  - simpl. rewrite app_nil_r. reflexivity.
  - rewrite paint_cons, IH, filter_cons.
    destruct (decide (on_grid p.1 p.2)) as [Hp|Hp].
    + rewrite paint1_on_grid by exact Hp. simpl.
      rewrite <- app_assoc. reflexivity.
    + rewrite paint1_off_grid by exact Hp. reflexivity.
Qed.

Lemma stores_since_app (b b' : Bitmap) (l : list store) :
  writes b' = writes b ++ l → stores_since b b' = l.
Proof. intros Hw. unfold stores_since. rewrite Hw. apply drop_app_length. Qed.

Lemma paint_stores (c : Z) (pts : list (Z * Z)) (cv : canvas) (x y v : Z) :
  (x, y, v) ∈ stores_since cv.1 (paint c pts cv).1 ↔
  v = c ∧ (x, y) ∈ pts ∧ on_grid x y.
Proof.
  rewrite (stores_since_app _ _ _ (paint_writes c pts cv)).
  rewrite list_elem_of_fmap. split.
  - intros ([px py] & Heq & Hin). simpl in Heq. injection Heq as -> -> ->.
    apply list_elem_of_filter in Hin as [Hg Hin]. auto.
  - intros (-> & Hin & Hg). exists (x, y). split; [reflexivity|].
    apply list_elem_of_filter. auto.
Qed.

End Line.

(** ** Clearing and reconciling *)

Section Clear.
Context {dims : Dimensions}.

Lemma set_pixel_paint1 (x y c : Z) (b : Bitmap) (px : gset (Z * Z)) :
  set_pixel x y c b = Ok (paint1 c (b, px) (x, y)).1.
Proof.
  unfold set_pixel, paint1, bitmap_setitem. simpl.
  destruct (in_bounds x y) eqn:Hb; [|reflexivity].
  apply in_bounds_on_grid in Hb.
  destruct (decide (on_grid x y)) as [_|Hn]; [reflexivity | contradiction].
Qed.

Lemma clear_pixel_paint1 (x y : Z) (b : Bitmap) (px : gset (Z * Z)) :
  clear_pixel x y b = Ok (paint1 0 (b, px) (x, y)).1.
Proof. apply set_pixel_paint1. Qed.

(** [fast_clear] never raises; it is a painting in the background colour. *)
Lemma fast_clear_paint (pixels : gset (Z * Z)) (b : Bitmap) :
  fast_clear pixels b = Ok (paint 0 (elements pixels) (b, ∅)).1.
Proof.
  unfold fast_clear. generalize (∅ : gset (Z * Z)) as px.
  revert b. induction (elements pixels) as [|[x y] l IH]; intros b px; [reflexivity|].
  simpl for_each. rewrite (clear_pixel_paint1 x y b px), bind_Ok.
  rewrite paint_cons.
  destruct (paint1 0 (b, px) (x, y)) as [b1 px1] eqn:Hp. simpl.
  apply IH.
Qed.

Lemma reconcile_paint (prev curr : gset (Z * Z)) (b : Bitmap) :
  reconcile prev curr b = Ok (paint 0 (elements (prev ∖ curr)) (b, ∅)).1.
Proof. apply fast_clear_paint. Qed.

End Clear.

(** ** One frame *)

Section Frame.
Context {dims : Dimensions}.

(** A loop whose body keeps an invariant and never raises runs to its end
    and keeps the invariant. *)
Lemma for_each_invariant {A S : Type} (P : S → Prop) (body : A → S → outcome S)
    (l : list A) (s : S) :
  P s →
  (∀ a s, a ∈ l → P s → ∃ s', body a s = Ok s' ∧ P s') →
  ∃ s', for_each body l s = Ok s' ∧ P s'.
Proof.
  revert s. induction l as [|a l IH]; intros s Hs Hbody.
  - exists s. split; [reflexivity | exact Hs].
  - destruct (Hbody a s) as (s1 & Hs1 & HP1); [left | exact Hs |].
    simpl. rewrite Hs1, bind_Ok.
    apply IH; [exact HP1|].
    intros a' s' Hin. apply Hbody. right. exact Hin.
Qed.

Lemma enumerate_vertices_index (iv : Z * Point3) :
  iv ∈ enumerate vertices → 0 ≤ iv.1 < 8.
Proof.
  revert iv. apply Forall_forall.
  repeat constructor; simpl; lia.
Qed.

Lemma edges_index (e : Z * Z) : e ∈ edges → 0 ≤ e.1 < 8 ∧ 0 ≤ e.2 < 8.
Proof.
  revert e. apply Forall_forall.
  repeat constructor; simpl; lia.
Qed.

Lemma edge_color_range (e : Z * Z) :
  edge_color e = 1 ∨ edge_color e = 2 ∨ edge_color e = 3.
Proof. unfold edge_color. repeat case_bool_decide; auto. Qed.

(** The first loop fills the eight slots and never raises. *)
Lemma transform_vertices_length (s : FastRotatingCube) :
  well_formed s →
  ∃ tv, transform_vertices s = Ok tv ∧ length tv = 8%nat.
Proof.
  intros Hwf. unfold transform_vertices.
  apply for_each_invariant with (P := λ tv, length tv = 8%nat); [exact (proj1 Hwf)|].
  intros [i v] tv Hin Htv.
  apply enumerate_vertices_index in Hin. simpl in Hin.
  rewrite fast_rotate_point_eq, bind_Ok.
  rewrite list_setitem_insert by lia.
  eexists. split; [reflexivity|].
  rewrite length_insert. exact Htv.
Qed.

(** One edge is one line in one of the three colours. *)
Lemma draw_edge_paint (tv : list Point2) (e : Z * Z) (cv : canvas) :
  length tv = 8%nat → e ∈ edges →
  ∃ pts, draw_edge tv e cv = Ok (paint (edge_color e) pts cv).
Proof.
  intros Htv Hin. apply edges_index in Hin as [H1 H2].
  unfold draw_edge.
  rewrite (list_getitem_nth tv e.1 (0, 0)) by lia.
  rewrite (list_getitem_nth tv e.2 (0, 0)) by lia.
  rewrite !bind_Ok, fast_draw_line_paint.
  eexists. reflexivity.
Qed.

Lemma drawn_over_start (b0 : Bitmap) : drawn_over b0 (b0, ∅).
Proof.
  split; intros x y Hin; [|reflexivity].
  apply not_elem_of_empty in Hin as [].
Qed.

Lemma off_path_or_grid (pts : list (Z * Z)) (x y : Z) :
  ¬ ((x, y) ∈ pts ∧ on_grid x y) → (x, y) ∉ pts ∨ ¬ on_grid x y.
Proof.
  intros Hn. destruct (decide ((x, y) ∈ pts)); [right; tauto | left; assumption].
Qed.

(** Painting in a colour other than the background keeps [drawn_over]. *)
Lemma paint_drawn_over (b0 : Bitmap) (c : Z) (pts : list (Z * Z)) (cv : canvas) :
  c ≠ 0 → drawn_over b0 cv → drawn_over b0 (paint c pts cv).
Proof.
  intros Hc [Hlit Hrest]. split; intros x y Hin.
  - destruct (decide ((x, y) ∈ pts ∧ on_grid x y)) as [[Hp Hg]|Hn].
    + split; [exact Hg|]. rewrite paint_pixel_painted by assumption. exact Hc.
    + apply paint_set in Hin as [Hin|[? ?]]; [|tauto].
      rewrite paint_pixel_other by (apply off_path_or_grid; exact Hn).
      apply Hlit. exact Hin.
  - assert (((x, y) ∉ cv.2) ∧ ¬ ((x, y) ∈ pts ∧ on_grid x y)) as [Hcv Hn].
    { split; intros H; apply Hin; apply paint_set; tauto. }
    rewrite paint_pixel_other by (apply off_path_or_grid; exact Hn).
    apply Hrest. exact Hcv.
Qed.

(** The second loop never raises and leaves the canvas [drawn_over]. *)
Lemma draw_edges_drawn_over (tv : list Point2) (b0 : Bitmap) :
  length tv = 8%nat →
  ∃ cv, for_each (draw_edge tv) edges (b0, ∅) = Ok cv ∧ drawn_over b0 cv.
Proof.
  intros Htv.
  apply for_each_invariant with (P := drawn_over b0); [apply drawn_over_start|].
  intros e cv Hin Hcv.
  destruct (draw_edge_paint tv e cv Htv Hin) as [pts Hpts]. rewrite Hpts.
  eexists. split; [reflexivity|].
  apply paint_drawn_over; [|exact Hcv].
  destruct (edge_color_range e) as [Hcol | [Hcol | Hcol]]; rewrite Hcol; lia.
Qed.

(** What [fast_draw_cube] leaves behind, field by field. *)
Lemma fast_draw_cube_spec (s : FastRotatingCube) :
  well_formed s →
  ∃ tv cv,
    length tv = 8%nat ∧ drawn_over (bitmap s) cv ∧
    fast_draw_cube s =
    Ok {| bitmap := (paint 0 (elements (previous_pixels s ∖ cv.2)) (cv.1, ∅)).1;
          angle_x := angle_x s; angle_y := angle_y s; angle_z := angle_z s;
          rotation_speed := rotation_speed s;
          scale := scale s; center_x := center_x s; center_y := center_y s;
          previous_pixels := cv.2;
          transformed_vertices := tv |}.
Proof.
  intros Hwf.
  destruct (transform_vertices_length s Hwf) as (tv & Htr & Htv).
  destruct (draw_edges_drawn_over tv (bitmap s) Htv) as ([b curr] & Hdr & Hover).
  exists tv, (b, curr). split; [exact Htv|]. split; [exact Hover|].
  unfold fast_draw_cube. rewrite Htr, bind_Ok, Hdr, bind_Ok.
  rewrite reconcile_paint, bind_Ok. reflexivity.
Qed.

(** After a frame the lit pixels are exactly the new previous-frame set,
    provided every pixel lit before was in the old one. *)
Lemma fast_draw_cube_lit (s : FastRotatingCube) :
  well_formed s → lit_in_previous s →
  ∃ s', fast_draw_cube s = Ok s' ∧ well_formed s' ∧ lit_is_previous s' ∧
        angle_x s' = angle_x s ∧ angle_y s' = angle_y s ∧ angle_z s' = angle_z s ∧
        rotation_speed s' = rotation_speed s ∧
        scale s' = scale s ∧ center_x s' = center_x s ∧ center_y s' = center_y s.
Proof.
  intros Hwf Hlit.
  destruct (fast_draw_cube_spec s Hwf) as (tv & [b curr] & Htv & [Hon Hoff] & ->).
  eexists. split; [reflexivity|].
  split; [split; [exact Htv | exact (proj2 Hwf)]|].
  split; [|simpl; repeat split; reflexivity].
  intros x y. simpl in *.
  destruct (decide ((x, y) ∈ curr)) as [Hc|Hc].
  - split; [intros _ | intros _; exact Hc].
    destruct (Hon x y Hc) as [Hg Hne]. split; [exact Hg|].
    rewrite paint_pixel_other; [exact Hne|].
    left. rewrite elem_of_elements, elem_of_difference. tauto.
  - split; [contradiction|]. intros [Hg Hne]. exfalso.
    destruct (decide ((x, y) ∈ previous_pixels s)) as [Hp|Hp].
    + apply Hne. apply paint_pixel_painted; [|exact Hg].
      rewrite elem_of_elements, elem_of_difference. tauto.
    + rewrite paint_pixel_other in Hne
        by (left; rewrite elem_of_elements, elem_of_difference; tauto).
      simpl in Hne. rewrite Hoff in Hne by exact Hc.
      apply Hp, Hlit; assumption.
Qed.

Lemma lit_is_previous_in (s : FastRotatingCube) :
  lit_is_previous s → lit_in_previous s.
Proof. intros H x y Hg Hne. apply H. split; assumption. Qed.

(** No method but [__init__] writes the attributes of the projection or the
    speed, and [fast_draw_cube] leaves the angles alone. *)
Lemma fast_draw_cube_attrs (s s' : FastRotatingCube) :
  fast_draw_cube s = Ok s' →
  scale s' = scale s ∧ center_x s' = center_x s ∧ center_y s' = center_y s ∧
  rotation_speed s' = rotation_speed s ∧
  angle_x s' = angle_x s ∧ angle_y s' = angle_y s ∧ angle_z s' = angle_z s.
Proof.
  unfold fast_draw_cube. intros H.
  apply bind_Ok_inv in H as (tv & _ & H).
  apply bind_Ok_inv in H as ([b curr] & _ & H).
  apply bind_Ok_inv in H as (b' & _ & H).
  injection H as <-. simpl. repeat split; reflexivity.
Qed.

Lemma update_rotation_wrapped (s : FastRotatingCube) :
  angles_wrapped (update_rotation s).
Proof.
  unfold angles_wrapped, update_rotation. simpl.
  repeat split; apply Z.mod_pos_bound; lia.
Qed.

Lemma cycle_attrs (s s' : FastRotatingCube) :
  cycle s = Ok s' →
  scale s' = scale s ∧ center_x s' = center_x s ∧ center_y s' = center_y s ∧
  rotation_speed s' = rotation_speed s.
Proof.
  unfold cycle. intros H.
  apply bind_Ok_inv in H as (s1 & H1 & H).
  injection H as <-. apply fast_draw_cube_attrs in H1. simpl. tauto.
Qed.

Lemma cycles_attrs (n : nat) (s s' : FastRotatingCube) :
  cycles n s = Ok s' →
  scale s' = scale s ∧ center_x s' = center_x s ∧ center_y s' = center_y s ∧
  rotation_speed s' = rotation_speed s.
Proof.
  revert s. induction n as [|n IH]; intros s H; simpl in H.
  - injection H as <-. tauto.
  - apply bind_Ok_inv in H as (s1 & H1 & H).
    apply cycle_attrs in H1. apply IH in H.
    destruct H as (-> & -> & -> & ->). exact H1.
Qed.

(** One cycle runs to its end on a well-formed object, whatever the device
    shows, and wraps the angles. *)
Lemma cycle_runs (s : FastRotatingCube) :
  well_formed s →
  ∃ s', cycle s = Ok s' ∧ well_formed s' ∧ angles_wrapped s'.
Proof.
  intros Hwf.
  destruct (fast_draw_cube_spec s Hwf) as (tv & cv & Htv & _ & Hdraw).
  unfold cycle. rewrite Hdraw, bind_Ok.
  eexists. split; [reflexivity|].
  split; [split; [exact Htv | exact (proj2 Hwf)] | apply update_rotation_wrapped].
Qed.

Lemma cycles_runs (n : nat) (s : FastRotatingCube) :
  well_formed s → angles_wrapped s →
  ∃ s', cycles n s = Ok s' ∧ well_formed s' ∧ angles_wrapped s'.
Proof.
  revert s. induction n as [|n IH]; intros s Hwf Hang.
  - exists s. split; [reflexivity | split; assumption].
  - destruct (cycle_runs s Hwf) as (s1 & H1 & Hwf1 & Hang1).
    simpl. rewrite H1, bind_Ok. apply IH; assumption.
Qed.

(** One cycle establishes [lit_is_previous] from [lit_in_previous]. *)
Lemma cycle_lit (s : FastRotatingCube) :
  well_formed s → lit_in_previous s →
  ∃ s', cycle s = Ok s' ∧ well_formed s' ∧ lit_is_previous s'.
Proof.
  intros Hwf Hlit.
  destruct (fast_draw_cube_lit s Hwf Hlit) as (s1 & H1 & Hwf1 & Hlit1 & _).
  unfold cycle. rewrite H1, bind_Ok.
  eexists. split; [reflexivity|]. split; [exact Hwf1 | exact Hlit1].
Qed.

Lemma cycles_lit (n : nat) (s : FastRotatingCube) :
  well_formed s → lit_is_previous s →
  ∃ s', cycles n s = Ok s' ∧ well_formed s' ∧ lit_is_previous s'.
Proof.
  revert s. induction n as [|n IH]; intros s Hwf Hlit.
  - exists s. split; [reflexivity | split; assumption].
  - destruct (cycle_lit s Hwf (lit_is_previous_in s Hlit)) as (s1 & H1 & Hwf1 & Hlit1).
    simpl. rewrite H1, bind_Ok. apply IH; assumption.
Qed.

End Frame.

(** ** The animation driver *)

Section Driver.
Context {dims : Dimensions}.

Lemma bitmap_setitem_on_grid (b : Bitmap) (x y v : Z) :
  on_grid x y →
  bitmap_setitem b x y v
  = Ok (mkBitmap (<[(x, y) := v]> (cells b)) (writes b ++ [(x, y, v)])).
Proof.
  intros Hg. unfold bitmap_setitem.
  destruct (decide (on_grid x y)) as [_|Hn]; [reflexivity | contradiction].
Qed.

(** One row of the clearing loops: nothing raises, the cells of the row
    named by [xs] read 0, and every other cell is either 0 or as before. *)
Lemma clear_row (y : Z) (xs : list Z) (b : Bitmap) :
  0 ≤ y < MATRIX_HEIGHT → (∀ x, x ∈ xs → 0 ≤ x < MATRIX_WIDTH) →
  ∃ b', for_each (λ x b, bitmap_setitem b x y 0) xs b = Ok b' ∧
        (∀ x, x ∈ xs → pixel b' x y = 0) ∧
        (∀ x' y', pixel b x' y' = 0 → pixel b' x' y' = 0).
Proof.
  intros Hy. revert b. induction xs as [|x xs IH]; intros b Hxs.
  - exists b. split; [reflexivity|]. split; [|auto].
    intros x Hin. apply elem_of_nil in Hin as [].
  - simpl.
    rewrite bitmap_setitem_on_grid by (split; [apply Hxs; left | exact Hy]).
    rewrite bind_Ok.
    destruct (IH (mkBitmap (<[(x, y) := 0]> (cells b)) (writes b ++ [(x, y, 0)])))
      as (b' & Hb' & Hrow & Hkeep).
    { intros x' Hin. apply Hxs. right. exact Hin. }
    exists b'. split; [exact Hb'|]. split.
    + intros x' Hin. apply elem_of_cons in Hin as [->|Hin]; [|apply Hrow; exact Hin].
      apply Hkeep, pixel_insert_eq.
    + intros x' y' H0. apply Hkeep.
      destruct (decide ((x, y) = (x', y'))) as [[= <- <-]|Hne].
      * apply pixel_insert_eq.
      * rewrite (pixel_insert_ne _ _ (writes b) _ _ _ _ Hne).
        destruct b. exact H0.
Qed.

Lemma clear_rows (ys : list Z) (b : Bitmap) :
  (∀ y, y ∈ ys → 0 ≤ y < MATRIX_HEIGHT) →
  ∃ b', for_each (λ y, for_each (λ x b, bitmap_setitem b x y 0) (range MATRIX_WIDTH)) ys b
        = Ok b' ∧
        (∀ x y, 0 ≤ x < MATRIX_WIDTH → y ∈ ys → pixel b' x y = 0) ∧
        (∀ x' y', pixel b x' y' = 0 → pixel b' x' y' = 0).
Proof.
  revert b. induction ys as [|y ys IH]; intros b Hys.
  - exists b. split; [reflexivity|]. split; [|auto].
    intros x y _ Hin. apply elem_of_nil in Hin as [].
  - destruct (clear_row y (range MATRIX_WIDTH) b) as (b1 & Hb1 & Hrow & Hkeep1).
    { apply Hys. left. }
    { intros x Hin. apply elem_of_seqZ in Hin. lia. }
    destruct (IH b1) as (b' & Hb' & Hrows & Hkeep).
    { intros y' Hin. apply Hys. right. exact Hin. }
    exists b'. split; [simpl; rewrite Hb1, bind_Ok; exact Hb'|]. split.
    + intros x y' Hx Hin. apply elem_of_cons in Hin as [->|Hin].
      * apply Hkeep, Hrow. apply elem_of_seqZ. lia.
      * apply Hrows; assumption.
    + intros x' y' H0. apply Hkeep, Hkeep1, H0.
Qed.

(** The clearing loops never raise and leave every cell at the background
    colour, whatever the device showed. *)
Lemma clear_display_background (b : Bitmap) :
  ∃ b', clear_display b = Ok b' ∧ all_background b'.
Proof.
  destruct (clear_rows (range MATRIX_HEIGHT) b) as (b' & Hb' & Hrows & _).
  { intros y Hin. apply elem_of_seqZ in Hin. lia. }
  exists b'. split; [exact Hb'|].
  intros x y [Hx Hy]. apply Hrows; [exact Hx|].
  apply elem_of_seqZ. lia.
Qed.

(** On a well-formed object the loop is left by [break] or by the interrupt
    as soon as a tick stops it. *)
Lemma animation_loop_stops (ticks : list tick) (s : FastRotatingCube) :
  well_formed s → stops ticks = true →
  ∃ s', animation_loop ticks s = Break s' ∨ animation_loop ticks s = Interrupted s'.
Proof.
  revert s. induction ticks as [|t ticks IH]; intros s Hwf Hstop; [discriminate|].
  destruct t as [| |mid]; simpl.
  - destruct (cycle_runs s Hwf) as (s1 & H1 & Hwf1 & _). rewrite H1.
    apply IH; [exact Hwf1 | exact Hstop].
  - exists s. left. reflexivity.
  - exists mid. right. reflexivity.
Qed.

End Driver.

(** * The statements of the specification *)

Section Statements.
Context {dims : Dimensions}.

(** C1, as the code has it.  For every point and every angles,
    [fast_rotate_point] never raises and applies exactly three planar
    rotations in the fixed order X axis, Y axis, Z axis.  Each is
    [newA = (a*cos - b*sin) // 1000], [newB = (a*sin + b*cos) // 1000] with
    the sine and cosine read from the tables at [angle % 360] and with FLOOR
    division; the pair [(a, b)] is [(y, z)] for X, [(z, x)] for Y and [(x, y)]
    for Z. *)
Theorem fast_rotate_point_three_floor_rotations (s : FastRotatingCube) (x y z : Z) :
  let sx := sin1000 (angle_x s) in let cx := cos1000 (angle_x s) in
  let sy := sin1000 (angle_y s) in let cy := cos1000 (angle_y s) in
  let sz := sin1000 (angle_z s) in let cz := cos1000 (angle_z s) in
  let y1 := (y * cx - z * sx) / 1000 in
  let z1 := (y * sx + z * cx) / 1000 in
  let z2 := (z1 * cy - x * sy) / 1000 in
  let x2 := (z1 * sy + x * cy) / 1000 in
  let x3 := (x2 * cz - y1 * sz) / 1000 in
  let y3 := (x2 * sz + y1 * cz) / 1000 in
  list_getitem SINE_TABLE (angle_x s mod 360) = Ok sx ∧
  list_getitem COSINE_TABLE (angle_x s mod 360) = Ok cx ∧
  list_getitem SINE_TABLE (angle_y s mod 360) = Ok sy ∧
  list_getitem COSINE_TABLE (angle_y s mod 360) = Ok cy ∧
  list_getitem SINE_TABLE (angle_z s mod 360) = Ok sz ∧
  list_getitem COSINE_TABLE (angle_z s mod 360) = Ok cz ∧
  rotate_about_x (angle_x s) (x, y, z) = (x, y1, z1) ∧
  rotate_about_y (angle_y s) (x, y1, z1) = (x2, y1, z2) ∧
  rotate_about_z (angle_z s) (x2, y1, z2) = (x3, y3, z2) ∧
  fast_rotate_point s (x, y, z) = Ok (x3, y3, z2).
Proof.
  cbv zeta.
  repeat (split; [first [apply SINE_TABLE_getitem | apply COSINE_TABLE_getitem
                        | reflexivity] |]).
  rewrite fast_rotate_point_eq. reflexivity.
Qed.

(** C8.  For every point [p] and all angles in [0, 360), rotating [p] with
    each angle incremented by exactly 360 returns exactly the point [q] that
    the rotation by the original angles returns (so the bound of one unit per
    axis holds with no error at all), which is not [p] in general; and with
    all three angles equal to 360 the result is [p] itself. *)
Theorem rotate_full_turn (s : FastRotatingCube) (p : Point3) (ax ay az : Z) :
  0 ≤ ax < 360 → 0 ≤ ay < 360 → 0 ≤ az < 360 →
  ∃ q,
    fast_rotate_point (set_angles ax ay az s) p = Ok q ∧
    fast_rotate_point (set_angles (ax + 360) (ay + 360) (az + 360) s) p = Ok q ∧
    fast_rotate_point (set_angles 360 360 360 s) p = Ok p.
Proof.
  intros _ _ _.
  eexists.
  split; [apply fast_rotate_point_eq|].
  split.
  { rewrite (fast_rotate_point_angles _ (set_angles ax ay az s)).
    - apply fast_rotate_point_eq.
    - simpl. replace (ax + 360) with (ax + 1 * 360) by lia. apply Z.mod_add. lia.
    - simpl. replace (ay + 360) with (ay + 1 * 360) by lia. apply Z.mod_add. lia.
    - simpl. replace (az + 360) with (az + 1 * 360) by lia. apply Z.mod_add. lia. }
  apply fast_rotate_point_full_turn.
Qed.

(** C9.  On an object whose projection attributes are the ones [__init__]
    computes, [fast_project_to_2d] returns
    [((x * scale // 1000 + center_x) // 1000, (y * scale // 1000 + center_y) // 1000)]
    with [scale = min(MATRIX_WIDTH, MATRIX_HEIGHT) * 300] and
    [center = MATRIX_dimension * 1000 // 2]; the [z] coordinate does not
    matter, and neither does anything the animation has done to the object
    in between: the same input gives the same output after any number of
    cycles. *)
Theorem fast_project_to_2d_pure (s : FastRotatingCube) (x y z : Z) :
  configured s →
  fast_project_to_2d s (x, y, z) =
    ((x * (Z.min MATRIX_WIDTH MATRIX_HEIGHT * 300) / 1000 + MATRIX_WIDTH * 1000 / 2) / 1000,
     (y * (Z.min MATRIX_WIDTH MATRIX_HEIGHT * 300) / 1000 + MATRIX_HEIGHT * 1000 / 2) / 1000) ∧
  (∀ z', fast_project_to_2d s (x, y, z') = fast_project_to_2d s (x, y, z)) ∧
  (∀ n s', cycles n s = Ok s' →
           fast_project_to_2d s' (x, y, z) = fast_project_to_2d s (x, y, z)).
Proof.
  intros (Hs & Hcx & Hcy). split; [|split].
  - unfold fast_project_to_2d. rewrite Hs, Hcx, Hcy. reflexivity.
  - reflexivity.
  - intros n s' Hrun. apply cycles_attrs in Hrun as (Hs' & Hcx' & Hcy' & _).
    unfold fast_project_to_2d. rewrite Hs', Hcx', Hcy'. reflexivity.
Qed.

(** C2.  For end points that are both on the grid, [fast_draw_line] runs to
    completion and the pixels it stores, in order, form a path that starts
    on the start point and ends on the end point, in which each pixel is a
    neighbour (diagonals included) of the one before, no pixel occurs
    twice, all are on the grid, they all receive the colour, they are what
    [current_pixels] gains, and their number lies between
    [max(|dx|, |dy|) + 1] and [|dx| + |dy| + 1]. *)
Theorem fast_draw_line_path (x1 y1 x2 y2 c : Z) (cv : canvas) :
  on_grid x1 y1 → on_grid x2 y2 →
  ∃ cv' path,
    fast_draw_line x1 y1 x2 y2 c cv = Ok cv' ∧
    stores_since cv.1 cv'.1 = map (λ p, (p.1, p.2, c)) path ∧
    head path = Some (x1, y1) ∧ last path = Some (x2, y2) ∧
    connected path ∧ NoDup path ∧
    Forall (λ p, on_grid p.1 p.2 ∧ pixel cv'.1 p.1 p.2 = c) path ∧
    (∀ q, q ∈ cv'.2 ↔ q ∈ cv.2 ∨ q ∈ path) ∧
    Z.max (Z.abs (x2 - x1)) (Z.abs (y2 - y1)) + 1 ≤ Z.of_nat (length path)
      ≤ Z.abs (x2 - x1) + Z.abs (y2 - y1) + 1.
Proof.
  intros [Hx1 Hy1] [Hx2 Hy2].
  pose proof (line_path_staircase x1 y1 x2 y2) as Hst.
  pose proof (line_step_unit x1 x2) as Hxs.
  pose proof (line_step_unit y1 y2) as Hys.
  assert (Forall (λ p, on_grid p.1 p.2) (line_path x1 y1 x2 y2)) as Hgrid.
  { apply Forall_forall. intros p Hin.
    apply line_path_in_box in Hin. unfold on_grid. lia. }
  exists (paint c (line_path x1 y1 x2 y2) cv), (line_path x1 y1 x2 y2).
  split; [apply fast_draw_line_paint|].
  split; [apply stores_since_app, paint_on_grid_writes, Hgrid|].
  split.
  { rewrite (staircase_head _ _ _ _ _ _ _ Hst).
    rewrite <- (line_start x1 x2), <- (line_start y1 y2). reflexivity. }
  split; [exact (staircase_last _ _ _ _ _ _ _ Hst)|].
  split; [exact (staircase_connected _ _ _ _ Hxs Hys _ _ _ Hst)|].
  split; [exact (staircase_NoDup _ _ _ _ Hxs Hys _ _ _ Hst)|].
  split.
  { apply Forall_forall. intros [qx qy] Hin.
    pose proof (proj1 (Forall_forall _ _) Hgrid _ Hin) as Hq.
    split; [exact Hq|]. apply paint_pixel_painted; assumption. }
  split; [|exact (staircase_length _ _ _ _ _ _ _ Hst)].
  intros [qx qy]. rewrite paint_set. split.
  - intros [?|[? _]]; auto.
  - intros [?|Hin]; [auto|]. right. split; [exact Hin|].
    exact (proj1 (Forall_forall _ _) Hgrid _ Hin).
Qed.

(** A line whose positions are all off the grid leaves the canvas as it
    found it. *)
Lemma fast_draw_line_off_grid (x1 y1 x2 y2 c : Z) (cv : canvas) :
  (∀ p, p ∈ line_path x1 y1 x2 y2 → ¬ on_grid p.1 p.2) →
  fast_draw_line x1 y1 x2 y2 c cv = Ok cv.
Proof.
  intros Hoff. rewrite fast_draw_line_paint, paint_off_grid; [reflexivity|].
  apply Forall_forall. exact Hoff.
Qed.

(** C3.  For every previous set, current set and bitmap, [reconcile] never
    raises; it stores the background colour in exactly the pixels of
    [previous - current] that are on the grid, which then read 0; and a
    pixel of [current] receives no store and reads what it read before, also
    when it is in [previous] too. *)
Theorem reconcile_clears_difference (prev curr : gset (Z * Z)) (b : Bitmap) :
  ∃ b',
    reconcile prev curr b = Ok b' ∧
    (∀ x y v, (x, y, v) ∈ stores_since b b' ↔
              v = 0 ∧ (x, y) ∈ prev ∧ ((x, y) ∉ curr) ∧ on_grid x y) ∧
    (∀ x y, (x, y) ∈ prev → (x, y) ∉ curr → on_grid x y → pixel b' x y = 0) ∧
    (∀ x y, (x, y) ∈ curr →
            pixel b' x y = pixel b x y ∧ ∀ v, (x, y, v) ∉ stores_since b b').
Proof.
  exists (paint 0 (elements (prev ∖ curr)) (b, ∅)).1.
  split; [apply reconcile_paint|].
  assert (∀ x y v, (x, y, v) ∈ stores_since b (paint 0 (elements (prev ∖ curr)) (b, ∅)).1 ↔
                   v = 0 ∧ (x, y) ∈ prev ∧ ((x, y) ∉ curr) ∧ on_grid x y) as Hst.
  { intros x y v.
    rewrite (paint_stores 0 (elements (prev ∖ curr)) (b, ∅) x y v).
    rewrite elem_of_elements, elem_of_difference. tauto. }
  split; [exact Hst|]. split.
  - intros x y Hp Hc Hg. apply paint_pixel_painted; [|exact Hg].
    rewrite elem_of_elements, elem_of_difference. tauto.
  - intros x y Hc. split.
    + rewrite paint_pixel_other; [reflexivity|].
      left. rewrite elem_of_elements, elem_of_difference. tauto.
    + intros v Hin. apply Hst in Hin. tauto.
Qed.

(** C4.  Every edge is drawn in a colour index among 1, 2 and 3, never the
    background 0.  A call of [fast_draw_cube] on an object whose lit pixels
    are exactly the stored previous-frame set runs to completion and leaves an
    object whose lit pixels are exactly the stored previous-frame set.
    Starting from a fully cleared bitmap and an empty previous-frame set, this
    holds after any number of cycles. *)
Theorem fast_draw_cube_keeps_lit_is_previous :
  (∀ e, edge_color e = 1 ∨ edge_color e = 2 ∨ edge_color e = 3) ∧
  (∀ s, well_formed s → lit_is_previous s →
        ∃ s', fast_draw_cube s = Ok s' ∧ well_formed s' ∧ lit_is_previous s') ∧
  (∀ n s, well_formed s → all_background (bitmap s) → previous_pixels s = ∅ →
          ∃ s', cycles n s = Ok s' ∧ well_formed s' ∧ lit_is_previous s').
Proof.
  split; [exact edge_color_range|]. split.
  - intros s Hwf Hlit.
    destruct (fast_draw_cube_lit s Hwf (lit_is_previous_in s Hlit))
      as (s' & Hs' & Hwf' & Hlit' & _).
    exists s'. auto.
  - intros n s Hwf Hbg Hprev. apply cycles_lit; [exact Hwf|].
    intros x y. rewrite Hprev. split.
    + intros Hin. apply not_elem_of_empty in Hin as [].
    + intros [Hg Hne]. exfalso. apply Hne, Hbg, Hg.
Qed.

(** C5.  For every number of cycles, on an object whose three angles are in
    [0, 360), the cycles run to completion and leave the three angles in
    [0, 360). *)
Theorem cycles_keep_angles_wrapped (n : nat) (s : FastRotatingCube) :
  well_formed s → angles_wrapped s →
  ∃ s', cycles n s = Ok s' ∧ angles_wrapped s'.
Proof.
  intros Hwf Hang.
  destruct (cycles_runs n s Hwf Hang) as (s' & Hs' & _ & Hang').
  exists s'. auto.
Qed.

(** C6.  For every coordinate outside the grid and every colour index,
    [set_pixel] and the clearing of one pixel return normally and leave the
    bitmap as it was, no store added; so do the guarded store of the line
    loop, which leaves [current_pixels] as it was too, and the line from such
    a point to itself. *)
Theorem out_of_bounds_writes_are_noops (x y c : Z) (b : Bitmap) (px : gset (Z * Z)) :
  ¬ on_grid x y →
  set_pixel x y c b = Ok b ∧
  clear_pixel x y b = Ok b ∧
  plot x y c (b, px) = Ok (b, px) ∧
  fast_draw_line x y x y c (b, px) = Ok (b, px).
Proof.
  intros Hoff.
  assert (paint1 c (b, px) (x, y) = (b, px)) as Hc by (apply paint1_off_grid; exact Hoff).
  assert (paint1 0 (b, px) (x, y) = (b, px)) as H0 by (apply paint1_off_grid; exact Hoff).
  split; [rewrite (set_pixel_paint1 x y c b px), Hc; reflexivity|].
  split; [rewrite (clear_pixel_paint1 x y b px), H0; reflexivity|].
  split; [rewrite plot_paint1, Hc; reflexivity|].
  apply fast_draw_line_off_grid. intros [qx qy] Hin.
  apply line_path_in_box in Hin. simpl in *.
  assert (qx = x) as -> by lia. assert (qy = y) as -> by lia. exact Hoff.
Qed.

(** C7, as the code has it.  For every pair of end points, on the grid or
    not, [fast_draw_line] runs to completion without raising: the loop ends
    within [|dx| + |dy| + 1] iterations, and with any larger budget its result
    is the same.  When both end points lie beyond the same edge of the matrix
    (both left of it, both right of it, both above it or both below it), it
    stores nothing in the bitmap and adds nothing to [current_pixels]. *)
Theorem fast_draw_line_terminates_and_clips (x1 y1 x2 y2 c : Z) (cv : canvas) :
  ∃ cv',
    fast_draw_line x1 y1 x2 y2 c cv = Ok cv' ∧
    (∀ fuel, (line_fuel x1 y1 x2 y2 ≤ fuel)%nat →
       fast_draw_line_loop fuel (Z.abs (x2 - x1)) (Z.abs (y2 - y1))
         (if x1 <? x2 then 1 else -1) (if y1 <? y2 then 1 else -1) x2 y2 c
         x1 y1 (Z.abs (x2 - x1) - Z.abs (y2 - y1)) cv = Ok cv') ∧
    ((x1 < 0 ∧ x2 < 0) ∨ (MATRIX_WIDTH ≤ x1 ∧ MATRIX_WIDTH ≤ x2) ∨
     (y1 < 0 ∧ y2 < 0) ∨ (MATRIX_HEIGHT ≤ y1 ∧ MATRIX_HEIGHT ≤ y2) →
     stores_since cv.1 cv'.1 = [] ∧ cv'.1 = cv.1 ∧ cv'.2 = cv.2).
Proof.
  exists (paint c (line_path x1 y1 x2 y2) cv).
  split; [apply fast_draw_line_paint|]. split.
  - intros fuel Hfuel.
    rewrite fast_draw_line_loop_enough by exact Hfuel.
    apply fast_draw_line_paint.
  - intros Hside.
    rewrite paint_off_grid.
    + split; [|split; reflexivity].
      apply stores_since_app. rewrite app_nil_r. reflexivity.
    + apply Forall_forall. intros p Hin.
      apply line_path_in_box in Hin. unfold on_grid. lia.
Qed.

(** However [run_animation] comes to return, the display is dark. *)
Lemma run_animation_returns_cleared (ticks : list tick) (s s' : FastRotatingCube) :
  run_animation ticks s = Ok s' → all_background (bitmap s').
Proof.
  unfold run_animation. intros Hrun.
  apply bind_Ok_inv in Hrun as (b0 & _ & Hrun).
  destruct (animation_loop ticks (set_bitmap b0 s)) as [s1|s1|e|];
    try discriminate;
    apply bind_Ok_inv in Hrun as (b1 & Hb1 & Hrun);
    injection Hrun as <-;
    destruct (clear_display_background (bitmap s1)) as (b1' & Hb1' & Hbg);
    rewrite Hb1 in Hb1'; injection Hb1' as <-; exact Hbg.
Qed.

(** C10.  Whenever some tick stops the loop, by the duration test or by a
    [KeyboardInterrupt] raised anywhere in an iteration, [run_animation]
    returns normally and every cell of the bitmap reads the background
    colour. *)
Theorem run_animation_leaves_display_cleared
    (ticks : list tick) (s : FastRotatingCube) :
  well_formed s → stops ticks = true →
  ∃ s', run_animation ticks s = Ok s' ∧ all_background (bitmap s').
Proof.
  intros Hwf Hstop.
  assert (∃ s', run_animation ticks s = Ok s') as [s' Hrun].
  { unfold run_animation.
    destruct (clear_display_background (bitmap s)) as (b0 & -> & _).
    rewrite bind_Ok.
    destruct (animation_loop_stops ticks (set_bitmap b0 s) Hwf Hstop)
      as (s1 & [-> | ->]);
      destruct (clear_display_background (bitmap s1)) as (b1 & -> & _);
      rewrite bind_Ok; eexists; reflexivity. }
  exists s'. split; [exact Hrun|].
  exact (run_animation_returns_cleared ticks s s' Hrun).
Qed.

End Statements.

(** * Further properties of the renderer *)

(** ** Quarter turns and the projection *)

Lemma quarter_turn_table (a : Z) : a mod 360 = 90 → sin1000 a = 1000 ∧ cos1000 a = 0.
Proof. unfold sin1000, cos1000. intros ->. split; reflexivity. Qed.

Lemma full_turn_table (b : Z) : b mod 360 = 0 → sin1000 b = 0 ∧ cos1000 b = 1000.
Proof. unfold sin1000, cos1000. intros ->. split; reflexivity. Qed.

Lemma rot2_quarter_turn (a u v : Z) :
  a mod 360 = 90 → rot2 Z.div a u v = (- v, u).
Proof.
  intros Ha. unfold rot2. destruct (quarter_turn_table a Ha) as [-> ->].
  rewrite !Z.mul_0_r, Z.add_0_r, Z.sub_0_l, <- Z.mul_opp_l, !Z.div_mul by lia.
  reflexivity.
Qed.

Lemma rot2_full_turn (b u v : Z) :
  b mod 360 = 0 → rot2 Z.div b u v = (u, v).
Proof.
  intros Hb. unfold rot2. destruct (full_turn_table b Hb) as [-> ->].
  rewrite !Z.mul_0_r, Z.add_0_l, Z.sub_0_r, !Z.div_mul by lia.
  reflexivity.
Qed.

(** X12.  Quarter turns are exact: with one angle congruent to 90 modulo 360
    and the two others to 0, [fast_rotate_point] exchanges two coordinates and
    negates one, without any rounding, for every point. *)
Theorem quarter_turns_are_exact (s : FastRotatingCube) (x y z a b : Z) :
  a mod 360 = 90 → b mod 360 = 0 →
  fast_rotate_point (set_angles a b b s) (x, y, z) = Ok (x, - z, y) ∧
  fast_rotate_point (set_angles b a b s) (x, y, z) = Ok (z, y, - x) ∧
  fast_rotate_point (set_angles b b a s) (x, y, z) = Ok (- y, x, z).
Proof.
  intros Ha Hb. rewrite !fast_rotate_point_eq.
  unfold rotate_about_z, rotate_about_y, rotate_about_x, set_angles.
  cbn [angle_x angle_y angle_z].
  repeat first [ rewrite (rot2_quarter_turn a) by exact Ha
               | rewrite (rot2_full_turn b) by exact Hb ].
  repeat split; reflexivity.
Qed.

Section Projection.
Context {dims : Dimensions}.

(** X13.  On an object configured as [__init__] does, the projection sends
    the centre of the cube to the pixel [(MATRIX_WIDTH // 2,
    MATRIX_HEIGHT // 2)] whatever the size of the matrix, and it keeps the
    order of the coordinates: a point further right (further down) is never
    drawn further left (further up). *)
Theorem fast_project_to_2d_centre_and_order (s : FastRotatingCube) :
  configured s → 0 ≤ MATRIX_WIDTH → 0 ≤ MATRIX_HEIGHT →
  (∀ z, fast_project_to_2d s (0, 0, z) = (MATRIX_WIDTH / 2, MATRIX_HEIGHT / 2)) ∧
  (∀ x y z x' y' z', x ≤ x' → y ≤ y' →
     (fast_project_to_2d s (x, y, z)).1 ≤ (fast_project_to_2d s (x', y', z')).1 ∧
     (fast_project_to_2d s (x, y, z)).2 ≤ (fast_project_to_2d s (x', y', z')).2).
Proof.
  intros (Hs & Hcx & Hcy) Hw Hh. unfold fast_project_to_2d. split.
  - intros _. rewrite Hcx, Hcy. simpl.
    replace (MATRIX_WIDTH * 1000) with (MATRIX_WIDTH * 500 * 2) by lia.
    replace (MATRIX_HEIGHT * 1000) with (MATRIX_HEIGHT * 500 * 2) by lia.
    rewrite !Z.div_mul by lia.
    rewrite Z.mul_0_l, Z.div_0_l, !Z.add_0_l by lia.
    change 1000 with (2 * 500).
    rewrite !Z.div_mul_cancel_r by lia. reflexivity.
  - intros x y z x' y' z' Hx Hy.
    assert (0 ≤ scale s) as Hpos by (rewrite Hs; lia).
    cbn [fst snd]. split.
    + apply Z.div_le_mono; [lia|]. apply Z.add_le_mono_r.
      apply Z.div_le_mono; [lia|]. apply Z.mul_le_mono_nonneg_r; assumption.
    + apply Z.div_le_mono; [lia|]. apply Z.add_le_mono_r.
      apply Z.div_le_mono; [lia|]. apply Z.mul_le_mono_nonneg_r; assumption.
Qed.

End Projection.

(** ** The line: one pixel per step of the longer axis, half a pixel from the
       true line *)

Section LineExact.
Variables dx dy x_step y_step x2 y2 : Z.
Hypothesis x_step_unit : x_step = 1 ∨ x_step = -1.
Hypothesis y_step_unit : y_step = 1 ∨ y_step = -1.

(** A line that is at least as wide as it is high takes a column at every
    iteration, and stays balanced: twice the deviation [rx * dy - ry * dx]
    stays in [[-dx, dx)]. *)
Lemma line_step_wide (rx ry : Z) :
  0 ≤ dy ≤ dx → 0 ≤ rx ≤ dx → 0 ≤ ry ≤ dy → 0 < rx + ry →
  - dx ≤ 2 * (rx * dy - ry * dx) < dx →
  ∃ ry',
    line_step dx dy x_step y_step (x2 - x_step * rx) (y2 - y_step * ry)
      (dx - dy + rx * dy - ry * dx)
      = (x2 - x_step * (rx - 1), y2 - y_step * ry',
         dx - dy + (rx - 1) * dy - ry' * dx) ∧
    1 ≤ rx ∧ 0 ≤ ry' ≤ ry ∧
    - dx ≤ 2 * ((rx - 1) * dy - ry' * dx) < dx.
Proof.
  intros Hd Hrx Hry Hpos Hbal. unfold line_step.
  rewrite Z.gtb_ltb.
  assert (1 ≤ rx) as Hrx1.
  { destruct (Z.eq_dec rx 0) as [->|]; [|lia]. exfalso.
    assert (1 ≤ ry) by lia. assert (1 ≤ dx) by lia.
    assert (dx ≤ ry * dx) by nia. lia. }
  assert (dy ≤ rx * dy) as HP by nia.
  assert ((rx - 1) * dy = rx * dy - dy) as HP' by ring.
  destruct (Z.ltb_spec (- dy) (2 * (dx - dy + rx * dy - ry * dx))) as [Hx|Hx];
    destruct (Z.ltb_spec (2 * (dx - dy + rx * dy - ry * dx)) dx) as [Hy|Hy].
  - assert (1 ≤ ry) by (destruct (Z.eq_dec ry 0) as [->|]; [exfalso; lia | lia]).
    exists (ry - 1). split; [f_equal; [f_equal|]; ring |].
    assert ((ry - 1) * dx = ry * dx - dx) as HQ' by ring.
    rewrite HP', HQ'. lia.
  - exists ry. split; [f_equal; [f_equal|]; ring |].
    rewrite HP'. lia.
  - exfalso. assert (dx = dy) by lia. subst dx.
    assert ((2 * (rx - ry) + 1) * dy = 0) as H0 by lia.
    apply Z.mul_eq_0 in H0. lia.
  - exfalso. lia.
Qed.

(** The same for a line that is higher than it is wide: a row at every
    iteration, the deviation in [(-dy, dy]]. *)
Lemma line_step_high (rx ry : Z) :
  0 ≤ dx < dy → 0 ≤ rx ≤ dx → 0 ≤ ry ≤ dy → 0 < rx + ry →
  - dy < 2 * (rx * dy - ry * dx) ≤ dy →
  ∃ rx',
    line_step dx dy x_step y_step (x2 - x_step * rx) (y2 - y_step * ry)
      (dx - dy + rx * dy - ry * dx)
      = (x2 - x_step * rx', y2 - y_step * (ry - 1),
         dx - dy + rx' * dy - (ry - 1) * dx) ∧
    1 ≤ ry ∧ 0 ≤ rx' ≤ rx ∧
    - dy < 2 * (rx' * dy - (ry - 1) * dx) ≤ dy.
Proof.
  intros Hd Hrx Hry Hpos Hbal. unfold line_step.
  rewrite Z.gtb_ltb.
  assert (1 ≤ ry) as Hry1.
  { destruct (Z.eq_dec ry 0) as [->|]; [|lia]. exfalso.
    assert (1 ≤ rx) by lia.
    assert (dy ≤ rx * dy) by nia. lia. }
  assert (dx ≤ ry * dx) as HQ by nia.
  assert ((ry - 1) * dx = ry * dx - dx) as HQ' by ring.
  destruct (Z.ltb_spec (- dy) (2 * (dx - dy + rx * dy - ry * dx))) as [Hx|Hx];
    destruct (Z.ltb_spec (2 * (dx - dy + rx * dy - ry * dx)) dx) as [Hy|Hy].
  - assert (1 ≤ rx) by (destruct (Z.eq_dec rx 0) as [->|]; [exfalso; lia | lia]).
    exists (rx - 1). split; [f_equal; [f_equal|]; ring |].
    assert ((rx - 1) * dy = rx * dy - dy) as HP' by ring.
    rewrite HP', HQ'. lia.
  - exfalso. lia.
  - exists rx. split; [f_equal; [f_equal|]; ring |].
    rewrite HQ'. lia.
  - exfalso. lia.
Qed.

Lemma line_points_wide (fuel : nat) (rx ry : Z) :
  0 ≤ dy ≤ dx → 0 < dx → 0 ≤ rx ≤ dx → 0 ≤ ry ≤ dy →
  - dx ≤ 2 * (rx * dy - ry * dx) < dx →
  rx + ry < Z.of_nat fuel →
  Z.of_nat (length (line_points fuel dx dy x_step y_step x2 y2
                      (x2 - x_step * rx) (y2 - y_step * ry)
                      (dx - dy + rx * dy - ry * dx))) = rx + 1 ∧
  ∀ p, p ∈ line_points fuel dx dy x_step y_step x2 y2
             (x2 - x_step * rx) (y2 - y_step * ry) (dx - dy + rx * dy - ry * dx) →
       ∃ rx' ry', p = (x2 - x_step * rx', y2 - y_step * ry') ∧
                  - dx ≤ 2 * (rx' * dy - ry' * dx) < dx.
Proof.
  intros Hd Hdx. revert rx ry.
  induction fuel as [|fuel IH]; intros rx ry Hrx Hry Hbal Hfuel; [lia|].
  simpl line_points.
  destruct ((x2 - x_step * rx =? x2) && (y2 - y_step * ry =? y2)) eqn:Hend.
  - apply (at_end x_step y_step x2 y2 x_step_unit y_step_unit) in Hend as [-> ->];
      [|lia|lia].
    split; [reflexivity|].
    intros p Hin. apply list_elem_of_singleton in Hin as ->.
    exists 0, 0. split; [reflexivity | lia].
  - assert (0 < rx + ry) as Hpos
      by (apply (not_at_end x_step y_step x2 y2 x_step_unit y_step_unit);
          [lia | lia | exact Hend]).
    destruct (line_step_wide rx ry Hd Hrx Hry Hpos Hbal)
      as (ry' & -> & ? & ? & Hbal').
    destruct (IH (rx - 1) ry') as [Hlen Hpts]; [lia | lia | exact Hbal' | lia |].
    split; [simpl length; lia|].
    intros p Hin. apply elem_of_cons in Hin as [->|Hin]; [|apply Hpts; exact Hin].
    exists rx, ry. split; [reflexivity | exact Hbal].
Qed.

Lemma line_points_high (fuel : nat) (rx ry : Z) :
  0 ≤ dx < dy → 0 ≤ rx ≤ dx → 0 ≤ ry ≤ dy →
  - dy < 2 * (rx * dy - ry * dx) ≤ dy →
  rx + ry < Z.of_nat fuel →
  Z.of_nat (length (line_points fuel dx dy x_step y_step x2 y2
                      (x2 - x_step * rx) (y2 - y_step * ry)
                      (dx - dy + rx * dy - ry * dx))) = ry + 1 ∧
  ∀ p, p ∈ line_points fuel dx dy x_step y_step x2 y2
             (x2 - x_step * rx) (y2 - y_step * ry) (dx - dy + rx * dy - ry * dx) →
       ∃ rx' ry', p = (x2 - x_step * rx', y2 - y_step * ry') ∧
                  - dy < 2 * (rx' * dy - ry' * dx) ≤ dy.
Proof.
  intros Hd. revert rx ry.
  induction fuel as [|fuel IH]; intros rx ry Hrx Hry Hbal Hfuel; [lia|].
  simpl line_points.
  destruct ((x2 - x_step * rx =? x2) && (y2 - y_step * ry =? y2)) eqn:Hend.
  - apply (at_end x_step y_step x2 y2 x_step_unit y_step_unit) in Hend as [-> ->];
      [|lia|lia].
    split; [reflexivity|].
    intros p Hin. apply list_elem_of_singleton in Hin as ->.
    exists 0, 0. split; [reflexivity | lia].
  - assert (0 < rx + ry) as Hpos
      by (apply (not_at_end x_step y_step x2 y2 x_step_unit y_step_unit);
          [lia | lia | exact Hend]).
    destruct (line_step_high rx ry Hd Hrx Hry Hpos Hbal)
      as (rx' & -> & ? & ? & Hbal').
    destruct (IH rx' (ry - 1)) as [Hlen Hpts]; [lia | lia | exact Hbal' | lia |].
    split; [simpl length; lia|].
    intros p Hin. apply elem_of_cons in Hin as [->|Hin]; [|apply Hpts; exact Hin].
    exists rx, ry. split; [reflexivity | exact Hbal].
Qed.

End LineExact.

(** The positions of a whole line: their number, and how far each is from the
    true line.  [rx * dy - ry * dx] is, up to sign, the cross product of the
    position (taken from the start point) with the direction of the line. *)
Lemma line_path_balanced (x1 y1 x2 y2 : Z) :
  Z.of_nat (length (line_path x1 y1 x2 y2))
    = Z.max (Z.abs (x2 - x1)) (Z.abs (y2 - y1)) + 1 ∧
  ∀ p, p ∈ line_path x1 y1 x2 y2 →
       ∃ rx ry, p = (x2 - (if x1 <? x2 then 1 else -1) * rx,
                     y2 - (if y1 <? y2 then 1 else -1) * ry) ∧
                2 * Z.abs (rx * Z.abs (y2 - y1) - ry * Z.abs (x2 - x1))
                  ≤ Z.max (Z.abs (x2 - x1)) (Z.abs (y2 - y1)).
Proof.
  unfold line_path.
  pose proof (Z.abs_nonneg (x2 - x1)) as Hdx.
  pose proof (Z.abs_nonneg (y2 - y1)) as Hdy.
  pose proof (line_fuel_enough x1 y1 x2 y2) as Hfuel.
  assert (Z.abs (x2 - x1) - Z.abs (y2 - y1)
          = Z.abs (x2 - x1) - Z.abs (y2 - y1)
            + Z.abs (x2 - x1) * Z.abs (y2 - y1)
            - Z.abs (y2 - y1) * Z.abs (x2 - x1)) as He by ring.
  destruct (Z.le_gt_cases (Z.abs (y2 - y1)) (Z.abs (x2 - x1))) as [Hle|Hgt].
  - destruct (Z.eq_dec (Z.abs (x2 - x1)) 0) as [H0|H0].
    + assert (Z.abs (y2 - y1) = 0) as Hdy0 by lia.
      assert (x1 = x2) as -> by lia. assert (y1 = y2) as -> by lia.
      unfold line_fuel. rewrite !Z.sub_diag. simpl.
      rewrite !Z.eqb_refl. simpl. split; [reflexivity|].
      intros p Hin. apply list_elem_of_singleton in Hin as ->.
      exists 0, 0. rewrite !Z.mul_0_r, !Z.sub_0_r. split; [reflexivity | lia].
    + destruct (line_points_wide (Z.abs (x2 - x1)) (Z.abs (y2 - y1))
                  (if x1 <? x2 then 1 else -1) (if y1 <? y2 then 1 else -1) x2 y2
                  (line_step_unit x1 x2) (line_step_unit y1 y2)
                  (line_fuel x1 y1 x2 y2) (Z.abs (x2 - x1)) (Z.abs (y2 - y1)))
        as [Hlen Hpts]; try lia.
      rewrite <- (line_start x1 x2), <- (line_start y1 y2), <- He in Hlen, Hpts.
      split; [rewrite Hlen; lia|].
      intros p Hin. destruct (Hpts p Hin) as (rx & ry & -> & Hbal).
      exists rx, ry. split; [reflexivity | lia].
  - destruct (line_points_high (Z.abs (x2 - x1)) (Z.abs (y2 - y1))
                (if x1 <? x2 then 1 else -1) (if y1 <? y2 then 1 else -1) x2 y2
                (line_step_unit x1 x2) (line_step_unit y1 y2)
                (line_fuel x1 y1 x2 y2) (Z.abs (x2 - x1)) (Z.abs (y2 - y1)))
      as [Hlen Hpts]; try lia.
    rewrite <- (line_start x1 x2), <- (line_start y1 y2), <- He in Hlen, Hpts.
    split; [rewrite Hlen; lia|].
    intros p Hin. destruct (Hpts p Hin) as (rx & ry & -> & Hbal).
    exists rx, ry. split; [reflexivity | lia].
Qed.

(** X2.  Every position of a line is within half a pixel of the true line,
    measured along the shorter axis: twice the cross product of the position
    (from the start point) with the direction of the line is at most
    [max(|dx|, |dy|)] in magnitude. *)
Theorem line_path_near_true_line (x1 y1 x2 y2 : Z) (p : Z * Z) :
  p ∈ line_path x1 y1 x2 y2 →
  2 * Z.abs ((p.1 - x1) * (y2 - y1) - (p.2 - y1) * (x2 - x1))
  ≤ Z.max (Z.abs (x2 - x1)) (Z.abs (y2 - y1)).
Proof.
  intros Hin.
  destruct (proj2 (line_path_balanced x1 y1 x2 y2) p Hin) as (rx & ry & -> & Hbal).
  simpl fst. simpl snd.
  assert (Z.abs ((x2 - (if x1 <? x2 then 1 else -1) * rx - x1) * (y2 - y1)
                 - (y2 - (if y1 <? y2 then 1 else -1) * ry - y1) * (x2 - x1))
          = Z.abs (rx * Z.abs (y2 - y1) - ry * Z.abs (x2 - x1))) as ->; [|exact Hbal].
  destruct (Z.ltb_spec x1 x2), (Z.ltb_spec y1 y2).
  - rewrite (Z.abs_eq (x2 - x1)), (Z.abs_eq (y2 - y1)) by lia.
    rewrite <- Z.abs_opp. f_equal. ring.
  - rewrite (Z.abs_eq (x2 - x1)) by lia. rewrite (Z.abs_neq (y2 - y1)) by lia.
    f_equal. ring.
  - rewrite (Z.abs_neq (x2 - x1)) by lia. rewrite (Z.abs_eq (y2 - y1)) by lia.
    f_equal. ring.
  - rewrite (Z.abs_neq (x2 - x1)), (Z.abs_neq (y2 - y1)) by lia.
    rewrite <- Z.abs_opp. f_equal. ring.
Qed.

(** ** The line: columns in order, and the lines along the axes *)

Section LineColumns.
Variables dx dy x_step y_step x2 y2 : Z.
Hypothesis x_step_unit : x_step = 1 ∨ x_step = -1.
Hypothesis y_step_unit : y_step = 1 ∨ y_step = -1.

Lemma seqZ_countdown (f : Z → Z) (rx : Z) :
  0 < rx →
  (λ i, f (rx - i)) <$> seqZ 0 (rx + 1)
  = f rx :: ((λ i, f (rx - 1 - i)) <$> seqZ 0 rx).
Proof.
  intros Hrx. rewrite seqZ_cons by lia. simpl fmap.
  rewrite Z.sub_0_r. f_equal.
  replace (Z.pred (rx + 1)) with rx by lia.
  replace (Z.succ 0) with (1 + 0) by lia.
  rewrite <- fmap_add_seqZ, <- list_fmap_compose.
  apply list_fmap_ext. intros _ i _. simpl. f_equal. lia.
Qed.

(** A line at least as wide as high takes the columns one by one. *)
Lemma line_points_wide_columns (fuel : nat) (rx ry : Z) :
  0 ≤ dy ≤ dx → 0 ≤ rx ≤ dx → 0 ≤ ry ≤ dy →
  - dx ≤ 2 * (rx * dy - ry * dx) < dx →
  rx + ry < Z.of_nat fuel →
  fst <$> line_points fuel dx dy x_step y_step x2 y2
            (x2 - x_step * rx) (y2 - y_step * ry) (dx - dy + rx * dy - ry * dx)
  = (λ i, x2 - x_step * (rx - i)) <$> seqZ 0 (rx + 1).
Proof.
  intros Hd. revert rx ry.
  induction fuel as [|fuel IH]; intros rx ry Hrx Hry Hbal Hfuel; [lia|].
  simpl line_points.
  destruct ((x2 - x_step * rx =? x2) && (y2 - y_step * ry =? y2)) eqn:Hend.
  - apply (at_end x_step y_step x2 y2 x_step_unit y_step_unit) in Hend as [-> ->];
      [|lia|lia].
    reflexivity.
  - assert (0 < rx + ry) as Hpos
      by (apply (not_at_end x_step y_step x2 y2 x_step_unit y_step_unit);
          [lia | lia | exact Hend]).
    destruct (line_step_wide dx dy x_step y_step x2 y2 rx ry Hd Hrx Hry Hpos Hbal)
      as (ry' & -> & ? & ? & Hbal').
    rewrite fmap_cons, (IH (rx - 1) ry' ltac:(lia) ltac:(lia) Hbal' ltac:(lia)).
    replace (rx - 1 + 1) with rx by lia. symmetry.
    exact (seqZ_countdown (λ r, x2 - x_step * r) rx ltac:(lia)).
Qed.

(** A line higher than wide takes the rows one by one. *)
Lemma line_points_high_rows (fuel : nat) (rx ry : Z) :
  0 ≤ dx < dy → 0 ≤ rx ≤ dx → 0 ≤ ry ≤ dy →
  - dy < 2 * (rx * dy - ry * dx) ≤ dy →
  rx + ry < Z.of_nat fuel →
  snd <$> line_points fuel dx dy x_step y_step x2 y2
            (x2 - x_step * rx) (y2 - y_step * ry) (dx - dy + rx * dy - ry * dx)
  = (λ i, y2 - y_step * (ry - i)) <$> seqZ 0 (ry + 1).
Proof.
  intros Hd. revert rx ry.
  induction fuel as [|fuel IH]; intros rx ry Hrx Hry Hbal Hfuel; [lia|].
  simpl line_points.
  destruct ((x2 - x_step * rx =? x2) && (y2 - y_step * ry =? y2)) eqn:Hend.
  - apply (at_end x_step y_step x2 y2 x_step_unit y_step_unit) in Hend as [-> ->];
      [|lia|lia].
    reflexivity.
  - assert (0 < rx + ry) as Hpos
      by (apply (not_at_end x_step y_step x2 y2 x_step_unit y_step_unit);
          [lia | lia | exact Hend]).
    destruct (line_step_high dx dy x_step y_step x2 y2 rx ry Hd Hrx Hry Hpos Hbal)
      as (rx' & -> & ? & ? & Hbal').
    rewrite fmap_cons, (IH rx' (ry - 1) ltac:(lia) ltac:(lia) Hbal' ltac:(lia)).
    replace (ry - 1 + 1) with ry by lia. symmetry.
    exact (seqZ_countdown (λ r, y2 - y_step * r) ry ltac:(lia)).
Qed.

End LineColumns.

Lemma pairs_from_fst (g : Z → Z) (l : list (Z * Z)) :
  (∀ p, p ∈ l → p.2 = g p.1) → l = (λ x, (x, g x)) <$> (fst <$> l).
Proof.
  induction l as [|[a b] l IH]; intros Hl; [reflexivity|].
  simpl. f_equal.
  - f_equal. exact (Hl (a, b) ltac:(left)).
  - apply IH. intros p Hin. apply Hl. right. exact Hin.
Qed.

Lemma pairs_from_snd (g : Z → Z) (l : list (Z * Z)) :
  (∀ p, p ∈ l → p.1 = g p.2) → l = (λ y, (g y, y)) <$> (snd <$> l).
Proof.
  induction l as [|[a b] l IH]; intros Hl; [reflexivity|].
  simpl. f_equal.
  - f_equal. exact (Hl (a, b) ltac:(left)).
  - apply IH. intros p Hin. apply Hl. right. exact Hin.
Qed.

Lemma line_path_point (x y : Z) : line_path x y x y = [(x, y)].
Proof.
  unfold line_path, line_fuel. rewrite !Z.sub_diag. simpl.
  rewrite !Z.eqb_refl. reflexivity.
Qed.

(** The columns of a wide line, the rows of a high one. *)
Lemma line_path_wide_columns (x1 y1 x2 y2 : Z) :
  Z.abs (y2 - y1) ≤ Z.abs (x2 - x1) →
  fst <$> line_path x1 y1 x2 y2
  = (λ i, x1 + (if x1 <? x2 then 1 else -1) * i) <$> seqZ 0 (Z.abs (x2 - x1) + 1).
Proof.
  intros Hwide.
  destruct (Z.eq_dec (Z.abs (x2 - x1)) 0) as [H0|H0].
  - assert (x1 = x2) as -> by lia. assert (y1 = y2) as -> by lia.
    rewrite line_path_point, Z.sub_diag. simpl. rewrite Z.mul_0_r, Z.add_0_r.
    reflexivity.
  - unfold line_path.
    pose proof (line_points_wide_columns (Z.abs (x2 - x1)) (Z.abs (y2 - y1))
      (if x1 <? x2 then 1 else -1) (if y1 <? y2 then 1 else -1) x2 y2
      (line_step_unit x1 x2) (line_step_unit y1 y2)
      (line_fuel x1 y1 x2 y2) (Z.abs (x2 - x1)) (Z.abs (y2 - y1))) as Hcols.
    rewrite <- (line_start x1 x2), <- (line_start y1 y2) in Hcols.
    replace (Z.abs (x2 - x1) - Z.abs (y2 - y1) + Z.abs (x2 - x1) * Z.abs (y2 - y1)
             - Z.abs (y2 - y1) * Z.abs (x2 - x1))
      with (Z.abs (x2 - x1) - Z.abs (y2 - y1)) in Hcols by ring.
    pose proof (Z.abs_nonneg (y2 - y1)).
    rewrite Hcols; [| lia | lia | lia | lia | apply line_fuel_enough].
    apply list_fmap_ext. intros _ i _.
    destruct (Z.ltb_spec x1 x2); lia.
Qed.

Lemma line_path_high_rows (x1 y1 x2 y2 : Z) :
  Z.abs (x2 - x1) < Z.abs (y2 - y1) →
  snd <$> line_path x1 y1 x2 y2
  = (λ i, y1 + (if y1 <? y2 then 1 else -1) * i) <$> seqZ 0 (Z.abs (y2 - y1) + 1).
Proof.
  intros Hhigh. unfold line_path.
  pose proof (line_points_high_rows (Z.abs (x2 - x1)) (Z.abs (y2 - y1))
    (if x1 <? x2 then 1 else -1) (if y1 <? y2 then 1 else -1) x2 y2
    (line_step_unit x1 x2) (line_step_unit y1 y2)
    (line_fuel x1 y1 x2 y2) (Z.abs (x2 - x1)) (Z.abs (y2 - y1))) as Hrows.
  rewrite <- (line_start x1 x2), <- (line_start y1 y2) in Hrows.
  replace (Z.abs (x2 - x1) - Z.abs (y2 - y1) + Z.abs (x2 - x1) * Z.abs (y2 - y1)
           - Z.abs (y2 - y1) * Z.abs (x2 - x1))
    with (Z.abs (x2 - x1) - Z.abs (y2 - y1)) in Hrows by ring.
  pose proof (Z.abs_nonneg (x2 - x1)).
  rewrite Hrows; [| lia | lia | lia | lia | apply line_fuel_enough].
  apply list_fmap_ext. intros _ i _.
  destruct (Z.ltb_spec y1 y2); lia.
Qed.

(** X3.  A line at least as wide as high stands on the columns from [x1] to
    [x2] one after the other, each exactly once; a line higher than wide does
    so with the rows from [y1] to [y2]. *)
Theorem line_path_one_per_column (x1 y1 x2 y2 : Z) :
  (Z.abs (y2 - y1) ≤ Z.abs (x2 - x1) →
   fst <$> line_path x1 y1 x2 y2
   = (λ i, x1 + (if x1 <? x2 then 1 else -1) * i) <$> seqZ 0 (Z.abs (x2 - x1) + 1)) ∧
  (Z.abs (x2 - x1) < Z.abs (y2 - y1) →
   snd <$> line_path x1 y1 x2 y2
   = (λ i, y1 + (if y1 <? y2 then 1 else -1) * i) <$> seqZ 0 (Z.abs (y2 - y1) + 1)).
Proof.
  split; [apply line_path_wide_columns | apply line_path_high_rows].
Qed.

(** X4.  The lines along the axes and the diagonals need no special case: a
    horizontal line is the row segment from [x1] to [x2] in order, a vertical
    line the column segment from [y1] to [y2], a line with [|dx| = |dy|] the
    diagonal, and a line from a point to itself that one point. *)
Theorem line_path_axes_and_diagonals (x1 y1 x2 y2 : Z) :
  line_path x1 y1 x2 y1
    = (λ i, (x1 + (if x1 <? x2 then 1 else -1) * i, y1))
        <$> seqZ 0 (Z.abs (x2 - x1) + 1) ∧
  line_path x1 y1 x1 y2
    = (λ i, (x1, y1 + (if y1 <? y2 then 1 else -1) * i))
        <$> seqZ 0 (Z.abs (y2 - y1) + 1) ∧
  line_path x1 y1 x1 y1 = [(x1, y1)] ∧
  (Z.abs (x2 - x1) = Z.abs (y2 - y1) →
   line_path x1 y1 x2 y2
     = (λ i, (x1 + (if x1 <? x2 then 1 else -1) * i,
              y1 + (if y1 <? y2 then 1 else -1) * i))
         <$> seqZ 0 (Z.abs (x2 - x1) + 1)).
Proof.
  split; [|split; [|split]].
  - rewrite (pairs_from_fst (λ _, y1) (line_path x1 y1 x2 y1)).
    + rewrite line_path_wide_columns by (rewrite Z.sub_diag; simpl; lia).
      rewrite <- list_fmap_compose. reflexivity.
    + intros p Hin. apply line_path_in_box in Hin. lia.
  - destruct (Z.eq_dec y1 y2) as [<-|Hne].
    + rewrite line_path_point, Z.sub_diag. simpl.
      rewrite Z.mul_0_r, Z.add_0_r. reflexivity.
    + rewrite (pairs_from_snd (λ _, x1) (line_path x1 y1 x1 y2)).
      * rewrite line_path_high_rows by (rewrite Z.sub_diag; simpl; lia).
        rewrite <- list_fmap_compose. reflexivity.
      * intros p Hin. apply line_path_in_box in Hin. lia.
  - apply line_path_point.
  - intros Hdiag.
    rewrite (pairs_from_fst
               (λ x, y1 + (if x1 <? x2 then 1 else -1) * (if y1 <? y2 then 1 else -1)
                          * (x - x1))
               (line_path x1 y1 x2 y2)).
    + rewrite line_path_wide_columns by lia.
      rewrite <- list_fmap_compose. apply list_fmap_ext. intros _ i _. simpl.
      f_equal. destruct (x1 <? x2), (y1 <? y2); ring.
    + intros p Hin.
      destruct (proj2 (line_path_balanced x1 y1 x2 y2) p Hin)
        as (rx & ry & -> & Hbal).
      simpl. rewrite <- Hdiag in Hbal.
      assert (rx = ry ∨ Z.abs (x2 - x1) = 0) as [->|H0].
      { destruct (Z.eq_dec (Z.abs (x2 - x1)) 0) as [?|Hnz]; [right; assumption|].
        left. pose proof (Z.abs_nonneg (x2 - x1)).
        rewrite <- Z.mul_sub_distr_r, Z.abs_mul, (Z.abs_eq (Z.abs (x2 - x1))) in Hbal
          by lia.
        rewrite Z.max_id in Hbal.
        assert (Z.abs (rx - ry) < 1) by nia. lia. }
      all: apply line_path_in_box in Hin; simpl in Hin.
      all: destruct (Z.ltb_spec x1 x2), (Z.ltb_spec y1 y2); lia.
Qed.

(** ** The line on the device: clipping *)

Section Clipping.
Context {dims : Dimensions}.

(** The positions with a smaller budget are the first ones with a larger
    budget. *)
Lemma line_points_take (k k' : nat) (dx dy xs ys x2 y2 x y e : Z) :
  (k ≤ k')%nat →
  line_points k dx dy xs ys x2 y2 x y e
  = take k (line_points k' dx dy xs ys x2 y2 x y e).
Proof.
  revert k' x y e. induction k as [|k IH]; intros k' x y e Hk; [reflexivity|].
  destruct k' as [|k']; [lia|].
  cbn [line_points take]. f_equal.
  destruct ((x =? x2) && (y =? y2)); [rewrite take_nil; reflexivity|].
  destruct (line_step dx dy xs ys x y e) as [[x' y'] e'].
  apply IH. lia.
Qed.

Lemma line_points_S (k : nat) (dx dy xs ys x2 y2 x y e : Z) :
  line_points (S k) dx dy xs ys x2 y2 x y e
  = (x, y) ::
    if (x =? x2) && (y =? y2) then []
    else let '(x', y', e') := line_step dx dy xs ys x y e in
         line_points k dx dy xs ys x2 y2 x' y' e'.
Proof. reflexivity. Qed.

Lemma fast_draw_line_loop_S (k : nat) (dx dy xs ys x2 y2 c x y e : Z) (cv : canvas) :
  fast_draw_line_loop (S k) dx dy xs ys x2 y2 c x y e cv
  = (cv ← plot x y c cv;
     if (x =? x2) && (y =? y2) then Ok cv
     else let '(x', y', e') := line_step dx dy xs ys x y e in
          fast_draw_line_loop k dx dy xs ys x2 y2 c x' y' e' cv).
Proof. reflexivity. Qed.

(** The budget the loop needs is the number of positions it stands on. *)
Lemma fast_draw_line_loop_budget (fuel : nat) (dx dy xs ys x2 y2 c x y e : Z)
    (cv : canvas) :
  (length (line_points (S fuel) dx dy xs ys x2 y2 x y e) = S fuel →
   fast_draw_line_loop fuel dx dy xs ys x2 y2 c x y e cv = OutOfFuel) ∧
  ((length (line_points (S fuel) dx dy xs ys x2 y2 x y e) ≤ fuel)%nat →
   fast_draw_line_loop fuel dx dy xs ys x2 y2 c x y e cv
   = Ok (paint c (line_points (S fuel) dx dy xs ys x2 y2 x y e) cv)).
Proof.
  revert x y e cv. induction fuel as [|fuel IH]; intros x y e cv.
  - split; [reflexivity|]. cbn [line_points length]. lia.
  - rewrite (line_points_S (S fuel)), fast_draw_line_loop_S, plot_paint1, bind_Ok.
    destruct ((x =? x2) && (y =? y2)).
    + split; [cbn [length]; lia | intros _; reflexivity].
    + destruct (line_step dx dy xs ys x y e) as [[x' y'] e'].
      destruct (IH x' y' e' (paint1 c cv (x, y))) as [IH1 IH2].
      split; intros H; cbn [length] in H.
      * apply IH1. lia.
      * rewrite paint_cons. apply IH2. lia.
Qed.

(** X1.  The loop of [fast_draw_line] runs its body exactly
    [max(|dx|, |dy|) + 1] times, whatever the end points: a budget of that many
    iterations lets it return, no smaller one does; it stands on as many
    positions, one per column of a line that is at least as wide as high, one
    per row otherwise. *)
Theorem fast_draw_line_iterations (x1 y1 x2 y2 c : Z) (cv : canvas) (fuel : nat) :
  Z.of_nat (length (line_path x1 y1 x2 y2))
    = Z.max (Z.abs (x2 - x1)) (Z.abs (y2 - y1)) + 1 ∧
  (Z.of_nat fuel ≤ Z.max (Z.abs (x2 - x1)) (Z.abs (y2 - y1)) →
   fast_draw_line_loop fuel (Z.abs (x2 - x1)) (Z.abs (y2 - y1))
     (if x1 <? x2 then 1 else -1) (if y1 <? y2 then 1 else -1) x2 y2 c
     x1 y1 (Z.abs (x2 - x1) - Z.abs (y2 - y1)) cv
   = OutOfFuel) ∧
  (Z.max (Z.abs (x2 - x1)) (Z.abs (y2 - y1)) < Z.of_nat fuel →
   fast_draw_line_loop fuel (Z.abs (x2 - x1)) (Z.abs (y2 - y1))
     (if x1 <? x2 then 1 else -1) (if y1 <? y2 then 1 else -1) x2 y2 c
     x1 y1 (Z.abs (x2 - x1) - Z.abs (y2 - y1)) cv
   = Ok (paint c (line_path x1 y1 x2 y2) cv)) ∧
  fast_draw_line x1 y1 x2 y2 c cv = Ok (paint c (line_path x1 y1 x2 y2) cv).
Proof.
  pose proof (proj1 (line_path_balanced x1 y1 x2 y2)) as Hlen.
  split; [exact Hlen|].
  assert (∀ k, (k ≤ line_fuel x1 y1 x2 y2)%nat →
               line_points k (Z.abs (x2 - x1)) (Z.abs (y2 - y1))
                 (if x1 <? x2 then 1 else -1) (if y1 <? y2 then 1 else -1) x2 y2
                 x1 y1 (Z.abs (x2 - x1) - Z.abs (y2 - y1))
               = take k (line_path x1 y1 x2 y2)) as Htake
    by (intros k Hk; apply line_points_take, Hk).
  assert (Z.max (Z.abs (x2 - x1)) (Z.abs (y2 - y1)) + 1
          ≤ Z.of_nat (line_fuel x1 y1 x2 y2)) as Hfuel
    by (unfold line_fuel; lia).
  split; [|split; [|apply fast_draw_line_paint]].
  - intros Hk.
    apply (proj1 (fast_draw_line_loop_budget fuel _ _ _ _ _ _ c _ _ _ cv)).
    rewrite Htake by lia. rewrite length_take. lia.
  - intros Hk.
    destruct (le_lt_dec (line_fuel x1 y1 x2 y2) fuel) as [Hbig|Hsmall].
    + rewrite (fast_draw_line_loop_enough fuel x1 y1 x2 y2 c cv Hbig).
      apply fast_draw_line_paint.
    + assert (take (S fuel) (line_path x1 y1 x2 y2) = line_path x1 y1 x2 y2) as Hall
        by (apply take_ge; lia).
      rewrite <- Hall. rewrite <- Htake by lia.
      apply (proj2 (fast_draw_line_loop_budget fuel _ _ _ _ _ _ c _ _ _ cv)).
      rewrite Htake, Hall by lia. lia.
Qed.

(** X5.  Whatever the end points, [fast_draw_line] returns normally; the
    stores it makes are, in order, the positions of the line that are on the
    grid, each with the colour given; so every store is on the grid and inside
    the box spanned by the end points, there are at most
    [max(|dx|, |dy|) + 1] of them, [current_pixels] gains exactly the stored
    coordinates, and every other pixel of the bitmap keeps its value. *)
Theorem fast_draw_line_clips (x1 y1 x2 y2 c : Z) (cv : canvas) :
  ∃ cv',
    fast_draw_line x1 y1 x2 y2 c cv = Ok cv' ∧
    stores_since cv.1 cv'.1
      = (λ p, (p.1, p.2, c)) <$> filter (λ p, on_grid p.1 p.2) (line_path x1 y1 x2 y2) ∧
    (∀ x y v, (x, y, v) ∈ stores_since cv.1 cv'.1 →
       on_grid x y ∧ v = c ∧
       Z.min x1 x2 ≤ x ≤ Z.max x1 x2 ∧ Z.min y1 y2 ≤ y ≤ Z.max y1 y2) ∧
    Z.of_nat (length (stores_since cv.1 cv'.1))
      ≤ Z.max (Z.abs (x2 - x1)) (Z.abs (y2 - y1)) + 1 ∧
    (∀ x y, (x, y) ∈ cv'.2 ↔ (x, y) ∈ cv.2 ∨ ∃ v, (x, y, v) ∈ stores_since cv.1 cv'.1) ∧
    (∀ x y, (∃ v, (x, y, v) ∈ stores_since cv.1 cv'.1) → pixel cv'.1 x y = c) ∧
    (∀ x y, (¬ ∃ v, (x, y, v) ∈ stores_since cv.1 cv'.1) →
            pixel cv'.1 x y = pixel cv.1 x y).
Proof.
  exists (paint c (line_path x1 y1 x2 y2) cv).
  split; [apply fast_draw_line_paint|].
  pose proof (stores_since_app _ _ _ (paint_writes c (line_path x1 y1 x2 y2) cv)) as Hst.
  split; [exact Hst|].
  assert (∀ x y, (∃ v, (x, y, v) ∈ stores_since cv.1 (paint c (line_path x1 y1 x2 y2) cv).1)
                 ↔ (x, y) ∈ line_path x1 y1 x2 y2 ∧ on_grid x y) as Hex.
  { intros x y. split.
    - intros [v Hv]. apply paint_stores in Hv. tauto.
    - intros [Hin Hg]. exists c. apply paint_stores. auto. }
  split; [|split; [|split; [|split]]].
  - intros x y v Hin. apply paint_stores in Hin as (-> & Hin & Hg).
    apply line_path_in_box in Hin. simpl in Hin. tauto.
  - rewrite Hst, length_fmap.
    pose proof (length_filter (λ p, on_grid p.1 p.2) (line_path x1 y1 x2 y2)).
    pose proof (proj1 (line_path_balanced x1 y1 x2 y2)). lia.
  - intros x y. rewrite Hex, paint_set. simpl. tauto.
  - intros x y Hv. apply Hex in Hv as [Hin Hg].
    apply paint_pixel_painted; assumption.
  - intros x y Hv. apply paint_pixel_other.
    apply off_path_or_grid. intros Hc. apply Hv, Hex, Hc.
Qed.

End Clipping.

(** ** The cost of a line *)

Section LineCost.
Context {dims : Dimensions}.

(** Distinct integers of [[0, n)] are at most [n]. *)
Lemma NoDup_range_length (l : list Z) (n : Z) :
  NoDup l → (∀ x, x ∈ l → 0 ≤ x < n) → Z.of_nat (length l) ≤ Z.max 0 n.
Proof.
  intros Hnd Hl.
  assert (l ⊆+ seqZ 0 n) as Hsub.
  { apply NoDup_submseteq; [exact Hnd|].
    intros x Hx. apply elem_of_seqZ. specialize (Hl x Hx). lia. }
  apply submseteq_length in Hsub. rewrite length_seqZ in Hsub. lia.
Qed.

Lemma affine_columns_NoDup (x σ n : Z) :
  σ = 1 ∨ σ = -1 → NoDup ((λ i, x + σ * i) <$> seqZ 0 n).
Proof.
  intros Hσ. apply NoDup_fmap_2_strong; [|apply NoDup_seqZ].
  intros i j _ _ Heq. destruct Hσ as [-> | ->]; lia.
Qed.

Lemma line_path_NoDup (x1 y1 x2 y2 : Z) : NoDup (line_path x1 y1 x2 y2).
Proof.
  exact (staircase_NoDup _ _ _ _ (line_step_unit x1 x2) (line_step_unit y1 y2)
           _ _ _ (line_path_staircase x1 y1 x2 y2)).
Qed.

Lemma on_grid_length_wide (x1 y1 x2 y2 : Z) :
  Z.abs (y2 - y1) ≤ Z.abs (x2 - x1) →
  Z.of_nat (length (filter (λ p, on_grid p.1 p.2) (line_path x1 y1 x2 y2)))
  ≤ Z.max 0 MATRIX_WIDTH.
Proof.
  intros Hwide.
  rewrite <- (length_fmap fst).
  apply NoDup_range_length.
  - apply (sublist_NoDup _ (fst <$> line_path x1 y1 x2 y2)).
    + rewrite (line_path_wide_columns x1 y1 x2 y2 Hwide).
      apply affine_columns_NoDup, line_step_unit.
    + apply fmap_sublist, sublist_filter.
  - intros x Hx. apply list_elem_of_fmap in Hx as (p & -> & Hp).
    apply list_elem_of_filter in Hp as [[Hg _] _]. exact Hg.
Qed.

Lemma on_grid_length_high (x1 y1 x2 y2 : Z) :
  Z.abs (x2 - x1) < Z.abs (y2 - y1) →
  Z.of_nat (length (filter (λ p, on_grid p.1 p.2) (line_path x1 y1 x2 y2)))
  ≤ Z.max 0 MATRIX_HEIGHT.
Proof.
  intros Hhigh.
  rewrite <- (length_fmap snd).
  apply NoDup_range_length.
  - apply (sublist_NoDup _ (snd <$> line_path x1 y1 x2 y2)).
    + rewrite (line_path_high_rows x1 y1 x2 y2 Hhigh).
      apply affine_columns_NoDup, line_step_unit.
    + apply fmap_sublist, sublist_filter.
  - intros y Hy. apply list_elem_of_fmap in Hy as (p & -> & Hp).
    apply list_elem_of_filter in Hp as [[_ Hg] _]. exact Hg.
Qed.

(** X10.  However far apart and however far off the matrix the end points
    are, [fast_draw_line] stores no pixel twice, and no more pixels than the
    matrix has columns when the line is at least as wide as high, than it has
    rows when the line is higher than wide: never more than
    [max(MATRIX_WIDTH, MATRIX_HEIGHT)]. *)
Theorem fast_draw_line_cost (x1 y1 x2 y2 c : Z) (cv : canvas) :
  ∃ cv',
    fast_draw_line x1 y1 x2 y2 c cv = Ok cv' ∧
    NoDup (stores_since cv.1 cv'.1) ∧
    (Z.abs (y2 - y1) ≤ Z.abs (x2 - x1) →
     Z.of_nat (length (stores_since cv.1 cv'.1)) ≤ Z.max 0 MATRIX_WIDTH) ∧
    (Z.abs (x2 - x1) < Z.abs (y2 - y1) →
     Z.of_nat (length (stores_since cv.1 cv'.1)) ≤ Z.max 0 MATRIX_HEIGHT) ∧
    Z.of_nat (length (stores_since cv.1 cv'.1))
    ≤ Z.max 0 (Z.max MATRIX_WIDTH MATRIX_HEIGHT).
Proof.
  exists (paint c (line_path x1 y1 x2 y2) cv).
  split; [apply fast_draw_line_paint|].
  rewrite (stores_since_app _ _ _ (paint_writes c (line_path x1 y1 x2 y2) cv)).
  change (map ?f ?l) with (f <$> l). rewrite length_fmap.
  pose proof (on_grid_length_wide x1 y1 x2 y2) as Hw.
  pose proof (on_grid_length_high x1 y1 x2 y2) as Hh.
  split; [|split; [exact Hw | split; [exact Hh|]]].
  - apply NoDup_fmap_2_strong; [|apply NoDup_filter, line_path_NoDup].
    intros [a b] [a' b'] _ _ Heq. simpl in Heq. congruence.
  - destruct (Z.le_gt_cases (Z.abs (y2 - y1)) (Z.abs (x2 - x1))) as [H|H].
    + specialize (Hw H). lia.
    + specialize (Hh H). lia.
Qed.

End LineCost.

(** ** The frame as a function of the angles *)

Section FrameFunction.
Context {dims : Dimensions}.

Lemma for_each_foldl {A S : Type} (body : A → S → outcome S) (f : S → A → S)
    (l : list A) (s : S) :
  (∀ a s, a ∈ l → body a s = Ok (f s a)) →
  for_each body l s = Ok (foldl f s l).
Proof.
  revert s. induction l as [|a l IH]; intros s Hbody; [reflexivity|].
  simpl. rewrite (Hbody a s) by left. rewrite bind_Ok.
  apply IH. intros a' s' Hin. apply Hbody. right. exact Hin.
Qed.

Lemma draw_edge_edge_path (tv : list Point2) (e : Z * Z) (cv : canvas) :
  length tv = 8%nat → e ∈ edges →
  draw_edge tv e cv = Ok (paint (edge_color e) (edge_path tv e) cv).
Proof.
  intros Htv Hin. apply edges_index in Hin as [H1 H2].
  unfold draw_edge, edge_path.
  rewrite (list_getitem_nth tv e.1 (0, 0)) by lia.
  rewrite (list_getitem_nth tv e.2 (0, 0)) by lia.
  rewrite !bind_Ok. apply fast_draw_line_paint.
Qed.

(** A loop over [enumerate] that assigns slot [i] from item [i] overwrites a
    list of the same length, whatever it held. *)
Lemma for_each_enumerate_assign {A B : Type} (body : Z * A → list B → outcome (list B))
    (f : A → B) (vs : list A) (done rest : list B) :
  (∀ i v l, body (i, v) l = list_setitem l i (f v)) →
  length rest = length vs →
  for_each body (zip (Z.of_nat <$> seq (length done) (length vs)) vs) (done ++ rest)
  = Ok (done ++ (f <$> vs)).
Proof.
  intros Hbody. revert done rest.
  induction vs as [|v vs IH]; intros done rest Hlen.
  - destruct rest; [reflexivity | discriminate].
  - destruct rest as [|r rest]; [discriminate|].
    simpl. rewrite Hbody, list_setitem_insert
      by (rewrite length_app; simpl; lia).
    rewrite bind_Ok, Nat2Z.id.
    replace (<[length done := f v]> (done ++ r :: rest))
      with ((done ++ [f v]) ++ rest).
    2:{ rewrite <- (Nat.add_0_r (length done)) at 1.
        rewrite insert_app_r. simpl. rewrite <- app_assoc. reflexivity. }
    replace (S (length done)) with (length (done ++ [f v]))
      by (rewrite length_app; simpl; lia).
    rewrite IH by (simpl in Hlen; lia).
    rewrite <- app_assoc. reflexivity.
Qed.

(** The first loop overwrites every one of the eight slots. *)
Lemma transform_vertices_projected (s : FastRotatingCube) :
  well_formed s → transform_vertices s = Ok (projected s).
Proof.
  intros [Hlen _]. unfold transform_vertices, enumerate, projected.
  apply (for_each_enumerate_assign _ (λ v, fast_project_to_2d s (rotated s v))
           vertices [] (transformed_vertices s)); [|exact Hlen].
  intros i v l. rewrite fast_rotate_point_eq, bind_Ok. reflexivity.
Qed.

Lemma fast_draw_cube_drawn_frame (s : FastRotatingCube) :
  well_formed s → fast_draw_cube s = Ok (drawn_frame s).
Proof.
  intros Hwf. unfold fast_draw_cube, drawn_frame, frame_canvas.
  rewrite (transform_vertices_projected s Hwf), bind_Ok.
  rewrite (for_each_foldl (draw_edge (projected s))
             (λ cv e, paint (edge_color e) (edge_path (projected s) e) cv)).
  2:{ intros e cv Hin. apply draw_edge_edge_path; [reflexivity | exact Hin]. }
  rewrite bind_Ok.
  destruct (foldl _ _ edges) as [b curr].
  rewrite reconcile_paint, bind_Ok.
  reflexivity.
Qed.

Lemma drawn_frame_bitmap (s : FastRotatingCube) :
  bitmap (drawn_frame s)
  = (paint 0 (elements (previous_pixels s ∖ (frame_canvas s (bitmap s, ∅)).2))
       ((frame_canvas s (bitmap s, ∅)).1, ∅)).1.
Proof. reflexivity. Qed.

Lemma drawn_frame_previous_pixels (s : FastRotatingCube) :
  previous_pixels (drawn_frame s) = (frame_canvas s (bitmap s, ∅)).2.
Proof. reflexivity. Qed.

Lemma drawn_frame_transformed_vertices (s : FastRotatingCube) :
  transformed_vertices (drawn_frame s) = projected s.
Proof. reflexivity. Qed.

Lemma drawn_frame_lit (s : FastRotatingCube) :
  well_formed s → lit_in_previous s →
  well_formed (drawn_frame s) ∧ lit_is_previous (drawn_frame s).
Proof.
  intros Hwf Hlit.
  destruct (fast_draw_cube_lit s Hwf Hlit) as (s1 & Hs1 & Hwf1 & Hlit1 & _).
  rewrite (fast_draw_cube_drawn_frame s Hwf) in Hs1.
  assert (drawn_frame s = s1) as Heq by (injection Hs1; trivial).
  rewrite Heq. split; assumption.
Qed.

Lemma paint_same_drawing (c : Z) (pts : list (Z * Z)) (cv cv' : canvas) :
  same_drawing cv cv' → same_drawing (paint c pts cv) (paint c pts cv').
Proof.
  intros [Hset Hpix]. split.
  - apply set_eq. intros [x y]. rewrite !paint_set, Hset. reflexivity.
  - intros x y Hin.
    destruct (decide ((x, y) ∈ pts ∧ on_grid x y)) as [[Hp Hg]|Hn].
    + rewrite !paint_pixel_painted by assumption. reflexivity.
    + rewrite !paint_pixel_other by (apply off_path_or_grid; exact Hn).
      apply Hpix. apply paint_set in Hin as [Hin|Hin]; [exact Hin | tauto].
Qed.

(** A relation that every step keeps is kept by the whole fold. *)
Lemma foldl_related {A S : Type} (R : S → S → Prop) (f : S → A → S)
    (l : list A) (s s' : S) :
  R s s' → (∀ a s s', a ∈ l → R s s' → R (f s a) (f s' a)) →
  R (foldl f s l) (foldl f s' l).
Proof.
  revert s s'. induction l as [|a l IH]; intros s s' HR Hstep; [exact HR|].
  simpl. apply IH.
  - apply Hstep; [left | exact HR].
  - intros a' t t' Hin. apply Hstep. right. exact Hin.
Qed.

Lemma frame_canvas_same_drawing (s s' : FastRotatingCube) (b b' : Bitmap) :
  projected s = projected s' →
  same_drawing (frame_canvas s (b, ∅)) (frame_canvas s' (b', ∅)).
Proof.
  intros Hproj. unfold frame_canvas. rewrite Hproj.
  apply (foldl_related same_drawing).
  - split; [reflexivity|]. intros x y Hin. apply not_elem_of_empty in Hin as [].
  - intros e cv cv' _ Hsame. apply paint_same_drawing, Hsame.
Qed.

Lemma sin1000_mod (a b : Z) : a mod 360 = b mod 360 → sin1000 a = sin1000 b.
Proof. unfold sin1000. intros ->. reflexivity. Qed.

Lemma cos1000_mod (a b : Z) : a mod 360 = b mod 360 → cos1000 a = cos1000 b.
Proof. unfold cos1000. intros ->. reflexivity. Qed.

Lemma projected_same_pose (s s' : FastRotatingCube) :
  same_pose s s' → projected s = projected s'.
Proof.
  intros (Hx & Hy & Hz & _ & Hs & Hcx & Hcy). unfold projected.
  apply list_fmap_ext. intros _ [[x y] z] _.
  unfold fast_project_to_2d, rotated, rotate_about_x, rotate_about_y,
    rotate_about_z, rot2.
  rewrite (sin1000_mod _ _ Hx), (cos1000_mod _ _ Hx), (sin1000_mod _ _ Hy),
    (cos1000_mod _ _ Hy), (sin1000_mod _ _ Hz), (cos1000_mod _ _ Hz), Hs, Hcx, Hcy.
  reflexivity.
Qed.

(** Two reconciled canvases that started as the same drawing show the same
    picture, when on each the lit pixels are exactly the recorded ones. *)
Lemma reconciled_same (cv cv' : canvas) (prev prev' : gset (Z * Z)) :
  same_drawing cv cv' →
  (∀ x y, (x, y) ∈ cv.2 ↔
          on_grid x y ∧ pixel (paint 0 (elements (prev ∖ cv.2)) (cv.1, ∅)).1 x y ≠ 0) →
  (∀ x y, (x, y) ∈ cv'.2 ↔
          on_grid x y ∧ pixel (paint 0 (elements (prev' ∖ cv'.2)) (cv'.1, ∅)).1 x y ≠ 0) →
  ∀ x y, on_grid x y →
         pixel (paint 0 (elements (prev ∖ cv.2)) (cv.1, ∅)).1 x y
         = pixel (paint 0 (elements (prev' ∖ cv'.2)) (cv'.1, ∅)).1 x y.
Proof.
  intros [Hset Hpix] Hlit Hlit' x y Hg.
  destruct (decide ((x, y) ∈ cv.2)) as [Hin|Hnin].
  - rewrite !paint_pixel_other.
    + exact (Hpix x y Hin).
    + left. rewrite elem_of_elements, elem_of_difference, <- Hset. tauto.
    + left. rewrite elem_of_elements, elem_of_difference. tauto.
  - destruct (Z.eq_dec (pixel (paint 0 (elements (prev ∖ cv.2)) (cv.1, ∅)).1 x y) 0)
      as [H0|Hne].
    2:{ exfalso. apply Hnin, Hlit. split; assumption. }
    destruct (Z.eq_dec (pixel (paint 0 (elements (prev' ∖ cv'.2)) (cv'.1, ∅)).1 x y) 0)
      as [H0'|Hne'].
    2:{ exfalso. apply Hnin. rewrite Hset. apply Hlit'. split; assumption. }
    rewrite H0, H0'. reflexivity.
Qed.

(** The picture a frame leaves depends on the pose only, provided every
    pixel lit before was in the previous-frame set. *)
Lemma drawn_frame_same_picture (s s' : FastRotatingCube) :
  well_formed s → well_formed s' → lit_in_previous s → lit_in_previous s' →
  same_pose s s' →
  same_picture (drawn_frame s) (drawn_frame s') ∧
  transformed_vertices (drawn_frame s) = transformed_vertices (drawn_frame s').
Proof.
  intros Hwf Hwf' Hlit Hlit' Hpose.
  pose proof (projected_same_pose s s' Hpose) as Hproj.
  destruct (drawn_frame_lit s Hwf Hlit) as [_ Hlit1].
  destruct (drawn_frame_lit s' Hwf' Hlit') as [_ Hlit1'].
  pose proof (frame_canvas_same_drawing s s' (bitmap s) (bitmap s') Hproj) as Hsame.
  unfold lit_is_previous in Hlit1, Hlit1'. unfold same_picture.
  rewrite drawn_frame_previous_pixels, drawn_frame_bitmap in Hlit1.
  rewrite drawn_frame_previous_pixels, drawn_frame_bitmap in Hlit1'.
  rewrite !drawn_frame_transformed_vertices, !drawn_frame_previous_pixels,
    !drawn_frame_bitmap.
  revert Hsame Hlit1 Hlit1'.
  generalize (frame_canvas s (bitmap s, ∅)) (frame_canvas s' (bitmap s', ∅)).
  intros cv cv' Hsame Hlit1 Hlit1'.
  split; [|exact Hproj].
  split; [exact (proj1 Hsame)|].
  exact (reconciled_same cv cv' _ _ Hsame Hlit1 Hlit1').
Qed.

End FrameFunction.

(** ** The frames of an animation *)

Section Animation.
Context {dims : Dimensions}.

Lemma drawn_frame_attrs (s : FastRotatingCube) :
  angle_x (drawn_frame s) = angle_x s ∧ angle_y (drawn_frame s) = angle_y s ∧
  angle_z (drawn_frame s) = angle_z s ∧
  rotation_speed (drawn_frame s) = rotation_speed s ∧
  scale (drawn_frame s) = scale s ∧ center_x (drawn_frame s) = center_x s ∧
  center_y (drawn_frame s) = center_y s.
Proof. repeat split; reflexivity. Qed.

Lemma drawn_frame_well_formed (s : FastRotatingCube) :
  well_formed s → well_formed (drawn_frame s).
Proof.
  intros [_ Hsp]. split.
  - rewrite drawn_frame_transformed_vertices. unfold projected.
    rewrite length_fmap. reflexivity.
  - rewrite (proj1 (proj2 (proj2 (proj2 (drawn_frame_attrs s))))). exact Hsp.
Qed.

Lemma update_rotation_attrs (s : FastRotatingCube) :
  angle_x (update_rotation s) = (angle_x s + rotation_speed s) mod 360 ∧
  angle_y (update_rotation s) = (angle_y s + advance_y (rotation_speed s)) mod 360 ∧
  angle_z (update_rotation s) = (angle_z s + advance_z (rotation_speed s)) mod 360 ∧
  rotation_speed (update_rotation s) = rotation_speed s ∧
  scale (update_rotation s) = scale s ∧ center_x (update_rotation s) = center_x s ∧
  center_y (update_rotation s) = center_y s.
Proof. repeat split; reflexivity. Qed.

Lemma update_rotation_well_formed (s : FastRotatingCube) :
  well_formed s → well_formed (update_rotation s).
Proof. intros H. exact H. Qed.

Lemma update_rotation_lit_in_previous (s : FastRotatingCube) :
  lit_in_previous s → lit_in_previous (update_rotation s).
Proof. intros H. exact H. Qed.

Lemma update_rotation_same_picture (s s' : FastRotatingCube) :
  same_picture s s' → same_picture (update_rotation s) (update_rotation s').
Proof. intros H. exact H. Qed.

Lemma update_rotation_transformed_vertices (s : FastRotatingCube) :
  transformed_vertices (update_rotation s) = transformed_vertices s.
Proof. reflexivity. Qed.

Lemma cycle_drawn_frame (s : FastRotatingCube) :
  well_formed s → cycle s = Ok (update_rotation (drawn_frame s)).
Proof.
  intros Hwf. unfold cycle.
  rewrite (fast_draw_cube_drawn_frame s Hwf), bind_Ok. reflexivity.
Qed.

Lemma cycles_snoc (n : nat) (s : FastRotatingCube) :
  cycles (S n) s = (s1 ← cycles n s; cycle s1).
Proof.
  revert s. induction n as [|n IH]; intros s.
  - simpl. destruct (cycle s); reflexivity.
  - change (cycles (S (S n)) s) with (s1 ← cycle s; cycles (S n) s1).
    change (cycles (S n) s) with (s1 ← cycle s; cycles n s1).
    destruct (cycle s) as [s1| |]; [|reflexivity|reflexivity].
    rewrite !bind_Ok. apply IH.
Qed.

(** The state after [n] cycles: the angles have advanced [n] times, modulo
    360, and nothing else of the pose has changed. *)
Lemma cycles_angles (n : nat) (s : FastRotatingCube) :
  well_formed s →
  ∃ s', cycles n s = Ok s' ∧ well_formed s' ∧
        rotation_speed s' = rotation_speed s ∧
        scale s' = scale s ∧ center_x s' = center_x s ∧ center_y s' = center_y s ∧
        angle_x s' mod 360 = (angle_x s + Z.of_nat n * rotation_speed s) mod 360 ∧
        angle_y s' mod 360
          = (angle_y s + Z.of_nat n * advance_y (rotation_speed s)) mod 360 ∧
        angle_z s' mod 360
          = (angle_z s + Z.of_nat n * advance_z (rotation_speed s)) mod 360 ∧
        ((0 < n)%nat → angles_wrapped s').
Proof.
  revert s. induction n as [|n IH]; intros s Hwf.
  - exists s. change (Z.of_nat 0) with 0. rewrite !Z.mul_0_l, !Z.add_0_r.
    split; [reflexivity|]. split; [exact Hwf|].
    repeat (split; [reflexivity|]). intros H. inversion H.
  - pose proof (cycle_drawn_frame s Hwf) as Hc.
    pose proof (drawn_frame_well_formed s Hwf) as Hwf1.
    destruct (drawn_frame_attrs s) as (Hax & Hay & Haz & Hsp & Hsc & Hcx & Hcy).
    revert Hc Hwf1 Hax Hay Haz Hsp Hsc Hcx Hcy.
    generalize (drawn_frame s). intros s1 Hc Hwf1 Hax Hay Haz Hsp Hsc Hcx Hcy.
    apply update_rotation_well_formed in Hwf1.
    destruct (update_rotation_attrs s1) as (Hax' & Hay' & Haz' & Hsp' & Hsc' & Hcx' & Hcy').
    pose proof (update_rotation_wrapped s1) as Hwrap.
    revert Hc Hwf1 Hax' Hay' Haz' Hsp' Hsc' Hcx' Hcy' Hwrap.
    generalize (update_rotation s1).
    intros s2 Hc Hwf2 Hax' Hay' Haz' Hsp' Hsc' Hcx' Hcy' Hwrap.
    destruct (IH s2 Hwf2)
      as (s' & Hs' & Hwf' & Hsp2 & Hsc2 & Hcx2 & Hcy2 & Hx & Hy & Hz & Hw).
    exists s'.
    split.
    { change (cycles (S n) s) with (s1 ← cycle s; cycles n s1).
      rewrite Hc, bind_Ok. exact Hs'. }
    split; [exact Hwf'|].
    split; [congruence|]. split; [congruence|]. split; [congruence|].
    split; [congruence|].
    rewrite Hsp in Hax', Hay', Haz'.
    rewrite Hsp', Hsp in Hx, Hy, Hz.
    rewrite Hax', Hax in Hx. rewrite Hay', Hay in Hy. rewrite Haz', Haz in Hz.
    rewrite Z.add_mod_idemp_l in Hx, Hy, Hz by lia.
    rewrite Nat2Z.inj_succ.
    split; [rewrite Hx; f_equal; lia|].
    split; [rewrite Hy; f_equal; lia|].
    split; [rewrite Hz; f_equal; lia|].
    intros _. destruct n as [|n]; [|apply Hw; lia].
    simpl in Hs'. injection Hs' as <-. exact Hwrap.
Qed.

(** Every lit pixel stays recorded, frame after frame. *)
Lemma cycles_lit_in_previous (n : nat) (s s' : FastRotatingCube) :
  well_formed s → lit_in_previous s → cycles n s = Ok s' → lit_in_previous s'.
Proof.
  revert s. induction n as [|n IH]; intros s Hwf Hlit Hrun.
  - simpl in Hrun. injection Hrun as <-. exact Hlit.
  - destruct (cycle_lit s Hwf Hlit) as (s1 & H1 & Hwf1 & Hlit1).
    change (cycles (S n) s) with (s1 ← cycle s; cycles n s1) in Hrun.
    rewrite H1, bind_Ok in Hrun.
    exact (IH s1 Hwf1 (lit_is_previous_in s1 Hlit1) Hrun).
Qed.

(** One cycle from two objects in the same pose. *)
Lemma cycle_same_pose (s s' : FastRotatingCube) :
  well_formed s → well_formed s' → lit_in_previous s → lit_in_previous s' →
  same_pose s s' →
  ∃ t t', cycle s = Ok t ∧ cycle s' = Ok t' ∧
          same_picture t t' ∧ transformed_vertices t = transformed_vertices t' ∧
          angle_x t = angle_x t' ∧ angle_y t = angle_y t' ∧ angle_z t = angle_z t'.
Proof.
  intros Hwf Hwf' Hlit Hlit' Hpose.
  exists (update_rotation (drawn_frame s)), (update_rotation (drawn_frame s')).
  split; [exact (cycle_drawn_frame s Hwf)|].
  split; [exact (cycle_drawn_frame s' Hwf')|].
  destruct (drawn_frame_same_picture s s' Hwf Hwf' Hlit Hlit' Hpose) as [Hpic Htv].
  split; [apply update_rotation_same_picture; exact Hpic|].
  split; [rewrite !update_rotation_transformed_vertices; exact Htv|].
  destruct Hpose as (Hx & Hy & Hz & Hsp & _).
  destruct (update_rotation_attrs (drawn_frame s)) as (-> & -> & -> & _).
  destruct (update_rotation_attrs (drawn_frame s')) as (-> & -> & -> & _).
  destruct (drawn_frame_attrs s) as (-> & -> & -> & -> & _).
  destruct (drawn_frame_attrs s') as (-> & -> & -> & -> & _).
  rewrite <- Hsp.
  rewrite (Z.add_mod (angle_x s)), (Z.add_mod (angle_y s)), (Z.add_mod (angle_z s)),
    (Z.add_mod (angle_x s')), (Z.add_mod (angle_y s')), (Z.add_mod (angle_z s'))
    by lia.
  rewrite Hx, Hy, Hz. repeat split; reflexivity.
Qed.




Lemma animation_loop_runs (k : nat) (rest : list tick) (s s' : FastRotatingCube) :
  cycles k s = Ok s' →
  animation_loop (replicate k Run ++ Elapsed :: rest) s = Break s'.
Proof.
  revert s. induction k as [|k IH]; intros s Hrun.
  - simpl in Hrun. injection Hrun as <-. reflexivity.
  - change (cycles (S k) s) with (s1 ← cycle s; cycles k s1) in Hrun.
    apply bind_Ok_inv in Hrun as (s1 & H1 & Hrun).
    simpl. rewrite H1. apply IH. exact Hrun.
Qed.

(** X6.  The picture a frame leaves is a function of the pose alone: two
    well-formed objects whose angles agree modulo 360 and whose speed, scale
    and centre agree, each with every lit pixel recorded in its
    [previous_pixels], come out of [fast_draw_cube] with the same pixel values
    all over the grid, the same [previous_pixels] and the same
    [transformed_vertices], whatever they showed and held before; all eight
    slots of [transformed_vertices] are overwritten. *)
Theorem fast_draw_cube_picture_of_pose (s s' : FastRotatingCube) :
  well_formed s → well_formed s' → lit_in_previous s → lit_in_previous s' →
  same_pose s s' →
  ∃ t t', fast_draw_cube s = Ok t ∧ fast_draw_cube s' = Ok t' ∧
          same_picture t t' ∧
          transformed_vertices t = projected s ∧
          transformed_vertices t' = projected s.
Proof.
  intros Hwf Hwf' Hlit Hlit' Hpose.
  exists (drawn_frame s), (drawn_frame s').
  split; [exact (fast_draw_cube_drawn_frame s Hwf)|].
  split; [exact (fast_draw_cube_drawn_frame s' Hwf')|].
  destruct (drawn_frame_same_picture s s' Hwf Hwf' Hlit Hlit' Hpose) as [Hpic Htv].
  split; [exact Hpic|].
  split; [apply drawn_frame_transformed_vertices|].
  rewrite <- Htv. apply drawn_frame_transformed_vertices.
Qed.

(** X7.  After [n] cycles, [n] at least 1, of a well-formed object the angles
    are [(angle + n * advance) mod 360], the advances being the speed,
    [int(speed * 0.7)] and [int(speed * 0.5)]; the speed, the scale and the
    centre are the ones at the start. *)
Theorem cycles_angles_closed_form (n : nat) (s : FastRotatingCube) :
  well_formed s → (0 < n)%nat →
  ∃ s', cycles n s = Ok s' ∧
        angle_x s' = (angle_x s + Z.of_nat n * rotation_speed s) mod 360 ∧
        angle_y s' = (angle_y s + Z.of_nat n * advance_y (rotation_speed s)) mod 360 ∧
        angle_z s' = (angle_z s + Z.of_nat n * advance_z (rotation_speed s)) mod 360 ∧
        rotation_speed s' = rotation_speed s ∧
        scale s' = scale s ∧ center_x s' = center_x s ∧ center_y s' = center_y s.
Proof.
  intros Hwf Hn.
  destruct (cycles_angles n s Hwf)
    as (s' & Hs' & _ & Hsp & Hsc & Hcx & Hcy & Hx & Hy & Hz & Hw).
  destruct (Hw Hn) as (Hwx & Hwy & Hwz).
  exists s'. split; [exact Hs'|].
  rewrite <- Hx, <- Hy, <- Hz, !Z.mod_small by assumption.
  repeat split; first [reflexivity | assumption].
Qed.

(** X8.  The animation repeats itself every 360 frames, whatever the speed:
    from a well-formed object with every lit pixel recorded, the object after
    [n + 360] cycles shows the same pixel values all over the grid as after
    [n] cycles ([n] at least 1), and has the same [previous_pixels], the same
    [transformed_vertices] and the same angles. *)
Theorem cycles_repeat_every_360 (n : nat) (s : FastRotatingCube) :
  well_formed s → lit_in_previous s → (0 < n)%nat →
  ∃ t t', cycles n s = Ok t ∧ cycles (n + 360) s = Ok t' ∧
          same_picture t t' ∧ transformed_vertices t = transformed_vertices t' ∧
          angle_x t = angle_x t' ∧ angle_y t = angle_y t' ∧ angle_z t = angle_z t'.
Proof.
  intros Hwf Hlit Hn.
  destruct n as [|m]; [inversion Hn|].
  change (S m + 360)%nat with (S (m + 360)).
  rewrite !cycles_snoc.
  destruct (cycles_angles m s Hwf)
    as (u & Hu & Hwfu & Hsp & Hsc & Hcx & Hcy & Hx & Hy & Hz & _).
  destruct (cycles_angles (m + 360) s Hwf)
    as (u' & Hu' & Hwfu' & Hsp' & Hsc' & Hcx' & Hcy' & Hx' & Hy' & Hz' & _).
  pose proof (cycles_lit_in_previous m s u Hwf Hlit Hu) as Hlitu.
  pose proof (cycles_lit_in_previous (m + 360) s u' Hwf Hlit Hu') as Hlitu'.
  rewrite Hu, Hu', !bind_Ok.
  apply cycle_same_pose; try assumption.
  assert (∀ a d, (a + Z.of_nat (m + 360) * d) mod 360 = (a + Z.of_nat m * d) mod 360)
    as Hturn.
  { intros a d. rewrite Nat2Z.inj_add.
    replace (a + (Z.of_nat m + Z.of_nat 360) * d)
      with (a + Z.of_nat m * d + d * 360) by lia.
    apply Z.mod_add. lia. }
  rewrite Hturn in Hx', Hy', Hz'.
  unfold same_pose. repeat split; congruence.
Qed.


(** X11.  A run that draws [k] frames before the duration has elapsed returns
    normally, with the display dark, the angles advanced [k] times modulo 360
    and the rest of the pose untouched; the object is left fit for another
    run (well-formed, no lit pixel unrecorded). *)
Theorem run_animation_for_frames (k : nat) (rest : list tick) (s : FastRotatingCube) :
  well_formed s →
  ∃ s', run_animation (replicate k Run ++ Elapsed :: rest) s = Ok s' ∧
        all_background (bitmap s') ∧ well_formed s' ∧ lit_in_previous s' ∧
        angle_x s' mod 360 = (angle_x s + Z.of_nat k * rotation_speed s) mod 360 ∧
        angle_y s' mod 360
          = (angle_y s + Z.of_nat k * advance_y (rotation_speed s)) mod 360 ∧
        angle_z s' mod 360
          = (angle_z s + Z.of_nat k * advance_z (rotation_speed s)) mod 360 ∧
        rotation_speed s' = rotation_speed s ∧
        scale s' = scale s ∧ center_x s' = center_x s ∧ center_y s' = center_y s.
Proof.
  intros Hwf. unfold run_animation.
  destruct (clear_display_background (bitmap s)) as (b0 & -> & _).
  rewrite bind_Ok.
  assert (well_formed (set_bitmap b0 s)) as Hwf0 by exact Hwf.
  destruct (cycles_angles k (set_bitmap b0 s) Hwf0)
    as (u & Hu & Hwfu & Hsp & Hsc & Hcx & Hcy & Hx & Hy & Hz & _).
  rewrite (animation_loop_runs k rest _ u Hu).
  destruct (clear_display_background (bitmap u)) as (b1 & -> & Hbg).
  rewrite bind_Ok. eexists. split; [reflexivity|].
  split; [exact Hbg|]. split; [exact Hwfu|].
  split; [intros x y Hg Hne; exfalso; exact (Hne (Hbg x y Hg))|].
  repeat split; assumption.
Qed.

End Animation.

(** * The statements at work on the default matrix *)

#[local] Existing Instance matrix_64.

(** The code floors where the specification truncates ([-999 // 1000] is
    [-1], not [0]), and its Y rotation has the sign of the sine the other
    way round than the formula applied to the pair [(x, z)]. *)
Lemma rotate_spec_differs :
  (fast_rotate_point (set_angles 1 0 0 init) (0, -1, 0) = Ok (0, -1, -1) ∧
   rotate_spec 1 0 0 (0, -1, 0) = (0, 0, 0) ∧
   fast_rotate_point (set_angles 1 0 0 init) (0, -1, 0)
     ≠ Ok (rotate_spec 1 0 0 (0, -1, 0))) ∧
  (fast_rotate_point (set_angles 0 90 0 init) (1000, 0, 0) = Ok (0, 0, -1000) ∧
   rotate_spec 0 90 0 (1000, 0, 0) = (0, 0, 1000) ∧
   fast_rotate_point (set_angles 0 90 0 init) (1000, 0, 0)
     ≠ Ok (rotate_spec 0 90 0 (1000, 0, 0))).
Proof. repeat split; vm_compute; congruence. Qed.

Lemma rotate_full_turn_witness :
  ∃ q,
    fast_rotate_point (set_angles 30 45 60 init) (1000, -1000, 1000) = Ok q ∧
    fast_rotate_point (set_angles (30 + 360) (45 + 360) (60 + 360) init)
      (1000, -1000, 1000) = Ok q ∧
    fast_rotate_point (set_angles 360 360 360 init) (1000, -1000, 1000)
    = Ok (1000, -1000, 1000).
Proof.
  apply (rotate_full_turn init (1000, -1000, 1000) 30 45 60); lia.
Defined.

(** A full turn added to every angle does not bring the point back: with the
    angles (90, 0, 0), each incremented by 360, the vertex (1000, -1000, 1000)
    goes where the quarter turn about X sends it, (1000, -1000, -1000), which
    is 2000 units from the vertex on the Z axis. *)
Lemma rotate_450_moves :
  fast_rotate_point (set_angles (90 + 360) (0 + 360) (0 + 360) init)
    (1000, -1000, 1000) = Ok (1000, -1000, -1000) ∧
  ¬ within_one (1000, -1000, -1000) (1000, -1000, 1000) ∧
  ¬ (∀ (p : Point3) (ax ay az : Z),
       0 ≤ ax < 360 → 0 ≤ ay < 360 → 0 ≤ az < 360 →
       ∃ r, fast_rotate_point
              (set_angles (ax + 360) (ay + 360) (az + 360) init) p = Ok r ∧
            within_one r p).
Proof.
  assert (fast_rotate_point (set_angles (90 + 360) (0 + 360) (0 + 360) init)
            (1000, -1000, 1000) = Ok (1000, -1000, -1000)) as Hrot
    by (vm_compute; reflexivity).
  assert (¬ within_one (1000, -1000, -1000) (1000, -1000, 1000)) as Hfar
    by (unfold within_one; lia).
  split; [exact Hrot|]. split; [exact Hfar|].
  intros Hall.
  destruct (Hall (1000, -1000, 1000) 90 0 0) as (r & Hr & Hnear); [lia..|].
  rewrite Hrot in Hr. injection Hr as <-. exact (Hfar Hnear).
Qed.

Lemma fast_project_to_2d_pure_witness :
  configured init ∧
  fast_project_to_2d init (1000, -1000, 1000) = (51, 12) ∧
  (∀ z', fast_project_to_2d init (1000, -1000, z')
         = fast_project_to_2d init (1000, -1000, 1000)) ∧
  (∀ n s', cycles n init = Ok s' →
           fast_project_to_2d s' (1000, -1000, 1000)
           = fast_project_to_2d init (1000, -1000, 1000)).
Proof.
  assert (configured init) as Hc by (repeat split; reflexivity).
  split; [exact Hc|].
  exact (fast_project_to_2d_pure init 1000 (-1000) 1000 Hc).
Defined.

Lemma fast_draw_line_path_witness :
  ∃ cv' path,
    fast_draw_line 3 5 10 9 2 (new_bitmap, ∅) = Ok cv' ∧
    stores_since new_bitmap cv'.1 = map (λ p, (p.1, p.2, 2)) path ∧
    head path = Some (3, 5) ∧ last path = Some (10, 9) ∧
    connected path ∧ NoDup path ∧
    Forall (λ p, on_grid p.1 p.2 ∧ pixel cv'.1 p.1 p.2 = 2) path ∧
    (∀ q, q ∈ cv'.2 ↔ q ∈ (∅ : gset (Z * Z)) ∨ q ∈ path) ∧
    Z.max (Z.abs (10 - 3)) (Z.abs (9 - 5)) + 1 ≤ Z.of_nat (length path)
      ≤ Z.abs (10 - 3) + Z.abs (9 - 5) + 1.
Proof.
  apply (fast_draw_line_path 3 5 10 9 2 (new_bitmap, ∅));
    unfold on_grid; simpl; lia.
Defined.

(** The pixels of that line, as the loop visits them. *)
Example line_path_3_5_10_9 :
  line_path 3 5 10 9 =
  [(3, 5); (4, 6); (5, 6); (6, 7); (7, 7); (8, 8); (9, 8); (10, 9)].
Proof. vm_compute. reflexivity. Qed.

Lemma reconcile_clears_difference_witness :
  let prev : gset (Z * Z) := {[ (1, 1); (2, 2) ]} in
  let curr : gset (Z * Z) := {[ (2, 2) ]} in
  let b := mkBitmap (<[(1, 1) := 1]> (<[(2, 2) := 2]> ∅)) [] in
  ∃ b', reconcile prev curr b = Ok b' ∧ pixel b' 1 1 = 0 ∧ pixel b' 2 2 = 2 ∧
        stores_since b b' = [(1, 1, 0)].
Proof.
  cbv zeta.
  assert ((1, 1) ∈ ({[ (1, 1); (2, 2) ]} : gset (Z * Z))) as Hprev by set_solver.
  assert ((1, 1) ∉ ({[ (2, 2) ]} : gset (Z * Z))) as Hcurr by set_solver.
  assert ((2, 2) ∈ ({[ (2, 2) ]} : gset (Z * Z))) as Hin by set_solver.
  destruct (reconcile_clears_difference {[ (1, 1); (2, 2) ]} {[ (2, 2) ]}
              (mkBitmap (<[(1, 1) := 1]> (<[(2, 2) := 2]> ∅)) []))
    as (b' & Hrun & _ & Hclear & Hkeep).
  exists b'. split; [exact Hrun|]. split; [|split].
  - apply Hclear; [exact Hprev | exact Hcurr | unfold on_grid; simpl; lia].
  - rewrite (proj1 (Hkeep 2 2 Hin)). reflexivity.
  - rewrite reconcile_paint in Hrun. injection Hrun as <-. vm_compute. reflexivity.
Defined.

Lemma fast_draw_cube_keeps_lit_is_previous_witness :
  ∃ s', cycles 2 init = Ok s' ∧ well_formed s' ∧ lit_is_previous s'.
Proof.
  apply (proj2 (proj2 fast_draw_cube_keeps_lit_is_previous) 2%nat init).
  - split; [reflexivity | vm_compute; reflexivity].
  - intros x y _. reflexivity.
  - reflexivity.
Defined.

(** The first frame: the cube seen along its Z axis is one square outline
    from 12 to 51, whose corners are the four connecting edges. *)
Example first_frame :
  (s ← fast_draw_cube init;
   Ok (size (previous_pixels s), pixel (bitmap s) 12 12, pixel (bitmap s) 30 12,
       pixel (bitmap s) 30 30))
  = Ok (156%nat, 3, 2, 0).
Proof. vm_compute. reflexivity. Qed.

Lemma cycles_keep_angles_wrapped_witness :
  well_formed init ∧ angles_wrapped init ∧
  ∃ s', cycles 5 init = Ok s' ∧ angles_wrapped s'.
Proof.
  assert (well_formed init) as Hwf by (split; [reflexivity | vm_compute; reflexivity]).
  assert (angles_wrapped init) as Hang by (unfold angles_wrapped; simpl; lia).
  split; [exact Hwf|]. split; [exact Hang|].
  exact (cycles_keep_angles_wrapped 5 init Hwf Hang).
Defined.

(** With the speed 3 of [__init__] the angles advance by 3, 2 and 1; after
    119 steps more the X angle wraps to 0. *)
Example update_rotation_default :
  let s := update_rotation init in
  (angle_x s, angle_y s, angle_z s) = (3, 2, 1) ∧
  let s := Nat.iter 120 update_rotation init in
  (angle_x s, angle_y s, angle_z s) = (0, 240, 120).
Proof. vm_compute. split; reflexivity. Qed.

Lemma out_of_bounds_writes_are_noops_witness :
  ¬ on_grid 64 0 ∧
  set_pixel 64 0 1 new_bitmap = Ok new_bitmap ∧
  clear_pixel 64 0 new_bitmap = Ok new_bitmap ∧
  plot 64 0 1 (new_bitmap, ∅) = Ok (new_bitmap, ∅) ∧
  fast_draw_line 64 0 64 0 1 (new_bitmap, ∅) = Ok (new_bitmap, ∅).
Proof.
  assert (¬ on_grid 64 0) as Hoff by (unfold on_grid; simpl; lia).
  split; [exact Hoff|].
  exact (out_of_bounds_writes_are_noops 64 0 1 new_bitmap ∅ Hoff).
Defined.

(** Both end points of this line are outside the matrix, one on each side:
    the line crosses it and stores the 64 pixels of row 0. *)
Lemma line_across_the_matrix :
  ¬ on_grid (-1) 0 ∧ ¬ on_grid 64 0 ∧
  ∃ cv', fast_draw_line (-1) 0 64 0 1 (new_bitmap, ∅) = Ok cv' ∧
         length (stores_since new_bitmap cv'.1) = 64%nat ∧
         size cv'.2 = 64%nat ∧ pixel cv'.1 0 0 = 1.
Proof.
  split; [unfold on_grid; simpl; lia|].
  split; [unfold on_grid; simpl; lia|].
  exists (paint 1 (line_path (-1) 0 64 0) (new_bitmap, ∅)).
  split; [apply fast_draw_line_paint|].
  repeat split; vm_compute; reflexivity.
Qed.

Lemma fast_draw_line_terminates_and_clips_witness :
  ∃ cv',
    fast_draw_line (-5) 3 (-1) 70 1 (new_bitmap, ∅) = Ok cv' ∧
    stores_since new_bitmap cv'.1 = [] ∧ cv'.1 = new_bitmap ∧ cv'.2 = ∅.
Proof.
  destruct (fast_draw_line_terminates_and_clips (-5) 3 (-1) 70 1 (new_bitmap, ∅))
    as (cv' & Hrun & _ & Hclip).
  exists cv'. split; [exact Hrun|].
  apply Hclip. left. lia.
Defined.

Lemma run_animation_leaves_display_cleared_witness :
  ∃ s', run_animation [Run; Run; CtrlC (update_rotation init)] init = Ok s' ∧
        all_background (bitmap s').
Proof.
  apply (run_animation_leaves_display_cleared [Run; Run; CtrlC (update_rotation init)] init).
  - split; [reflexivity | vm_compute; reflexivity].
  - reflexivity.
Defined.

(** A run of three frames stopped by the duration test: the device has been
    written to, and is dark again at the end. *)
Example run_three_frames :
  (s ← run_animation [Run; Run; Run; Elapsed] init;
   Ok (size (dom (filter (λ kv, kv.2 ≠ 0) (cells (bitmap s)))),
       angle_x s, angle_y s, angle_z s))
  = Ok (0%nat, 9, 6, 3).
Proof. vm_compute. reflexivity. Qed.

(** ** The further properties at work *)

Lemma line_path_near_true_line_witness :
  (6, 7) ∈ line_path 3 5 10 9 ∧
  2 * Z.abs (((6, 7).1 - 3) * (9 - 5) - ((6, 7).2 - 5) * (10 - 3))
  ≤ Z.max (Z.abs (10 - 3)) (Z.abs (9 - 5)).
Proof.
  assert ((6, 7) ∈ line_path 3 5 10 9) as Hin by (vm_compute; repeat constructor).
  split; [exact Hin|].
  exact (line_path_near_true_line 3 5 10 9 (6, 7) Hin).
Defined.

Lemma line_path_one_per_column_witness :
  fst <$> line_path 3 5 10 9 = [3; 4; 5; 6; 7; 8; 9; 10] ∧
  snd <$> line_path 2 9 0 1 = [9; 8; 7; 6; 5; 4; 3; 2; 1].
Proof.
  split.
  - rewrite (proj1 (line_path_one_per_column 3 5 10 9)) by lia. reflexivity.
  - rewrite (proj2 (line_path_one_per_column 2 9 0 1)) by lia. reflexivity.
Defined.

Lemma line_path_axes_and_diagonals_witness :
  line_path 5 2 1 2 = [(5, 2); (4, 2); (3, 2); (2, 2); (1, 2)] ∧
  line_path 0 0 3 (-3) = [(0, 0); (1, -1); (2, -2); (3, -3)].
Proof.
  split.
  - rewrite (proj1 (line_path_axes_and_diagonals 5 2 1 2)). reflexivity.
  - rewrite (proj2 (proj2 (proj2 (line_path_axes_and_diagonals 0 0 3 (-3)))))
      by reflexivity.
    reflexivity.
Defined.

Lemma fast_draw_cube_picture_of_pose_witness :
  let s' := {| bitmap := new_bitmap;
               angle_x := 360; angle_y := 720; angle_z := -360;
               rotation_speed := 3;
               scale := scale init; center_x := center_x init;
               center_y := center_y init;
               previous_pixels := {[ (1, 1) ]};
               transformed_vertices := replicate 8 (5, 5) |} in
  ∃ t t', fast_draw_cube init = Ok t ∧ fast_draw_cube s' = Ok t' ∧
          same_picture t t' ∧
          transformed_vertices t = projected init ∧
          transformed_vertices t' = projected init.
Proof.
  cbv zeta. apply fast_draw_cube_picture_of_pose.
  - split; [reflexivity | vm_compute; reflexivity].
  - split; [reflexivity | vm_compute; reflexivity].
  - intros x y _ Hlit. exfalso. apply Hlit. reflexivity.
  - intros x y _ Hlit. exfalso. apply Hlit. reflexivity.
  - repeat split; reflexivity.
Defined.

Lemma cycles_angles_closed_form_witness :
  ∃ s', cycles 5 init = Ok s' ∧
        angle_x s' = (0 + 5 * 3) mod 360 ∧
        angle_y s' = (0 + 5 * 2) mod 360 ∧
        angle_z s' = (0 + 5 * 1) mod 360 ∧
        rotation_speed s' = 3 ∧
        scale s' = scale init ∧ center_x s' = center_x init ∧
        center_y s' = center_y init.
Proof.
  apply (cycles_angles_closed_form 5 init);
    [split; [reflexivity | vm_compute; reflexivity] | lia].
Defined.

Lemma cycles_repeat_every_360_witness :
  ∃ t t', cycles 1 init = Ok t ∧ cycles (1 + 360) init = Ok t' ∧
          same_picture t t' ∧ transformed_vertices t = transformed_vertices t' ∧
          angle_x t = angle_x t' ∧ angle_y t = angle_y t' ∧ angle_z t = angle_z t'.
Proof.
  apply (cycles_repeat_every_360 1 init).
  - split; [reflexivity | vm_compute; reflexivity].
  - intros x y _ Hlit. exfalso. apply Hlit. reflexivity.
  - lia.
Defined.


Lemma run_animation_for_frames_witness :
  ∃ s', run_animation (replicate 3 Run ++ Elapsed :: [Run]) init = Ok s' ∧
        all_background (bitmap s') ∧ well_formed s' ∧ lit_in_previous s' ∧
        angle_x s' mod 360 = (0 + 3 * 3) mod 360 ∧
        angle_y s' mod 360 = (0 + 3 * 2) mod 360 ∧
        angle_z s' mod 360 = (0 + 3 * 1) mod 360 ∧
        rotation_speed s' = 3 ∧
        scale s' = scale init ∧ center_x s' = center_x init ∧
        center_y s' = center_y init.
Proof.
  apply (run_animation_for_frames 3 [Run] init).
  split; [reflexivity | vm_compute; reflexivity].
Defined.

Lemma quarter_turns_are_exact_witness :
  fast_rotate_point (set_angles 450 360 360 init) (1000, -1000, 1000)
    = Ok (1000, - 1000, -1000) ∧
  fast_rotate_point (set_angles 360 450 360 init) (1000, -1000, 1000)
    = Ok (1000, -1000, - 1000) ∧
  fast_rotate_point (set_angles 360 360 450 init) (1000, -1000, 1000)
    = Ok (- -1000, 1000, 1000).
Proof.
  apply (quarter_turns_are_exact init 1000 (-1000) 1000 450 360); reflexivity.
Defined.

Lemma fast_project_to_2d_centre_and_order_witness :
  0 ≤ MATRIX_WIDTH ∧ 0 ≤ MATRIX_HEIGHT ∧ configured init ∧
  (∀ z, fast_project_to_2d init (0, 0, z) = (MATRIX_WIDTH / 2, MATRIX_HEIGHT / 2)) ∧
  (∀ x y z x' y' z', x ≤ x' → y ≤ y' →
     (fast_project_to_2d init (x, y, z)).1 ≤ (fast_project_to_2d init (x', y', z')).1 ∧
     (fast_project_to_2d init (x, y, z)).2 ≤ (fast_project_to_2d init (x', y', z')).2).
Proof.
  assert (0 ≤ MATRIX_WIDTH) as Hw by (simpl; lia).
  assert (0 ≤ MATRIX_HEIGHT) as Hh by (simpl; lia).
  assert (configured init) as Hc by (repeat split; reflexivity).
  split; [exact Hw|]. split; [exact Hh|]. split; [exact Hc|].
  exact (fast_project_to_2d_centre_and_order init Hc Hw Hh).
Defined.
